(** * Trade-execution backend: status codec, packing-list seal, milestone actions

    A shallow embedding of the three pieces of the server that carry
    correctness requirements:

    - [StatusCodec]: [mapStatusToInt] / [mapStatusToString];
    - [Attestation]: [VPL_SECRET_KEY], [generateSecurityHash],
      [verifySecurityHash], together with the parts of the JavaScript
      runtime they call ([JSON.stringify] with an array replacer,
      [Array.prototype.sort], HMAC-SHA256);
    - [Milestones]: the five guarded milestone handlers, run against a
      transactional store.
*)

From Stdlib Require Import ZArith Lia Ascii String List DecimalString DecimalPos DecimalZ.
From stdpp Require Import base option list gmap strings sorting.

Set Warnings "-register-all".

Open Scope Z_scope.
Open Scope string_scope.
Open Scope list_scope.

(* ===================================================================== *)
(** ** JavaScript values                                                  *)
(* ===================================================================== *)

Module Js.

(** The values the modelled functions see.  Numbers are restricted to
    integers.  [VBuiltin name] stands for the member [name] that every
    plain object inherits from [Object.prototype] (a function, or for
    [__proto__] the prototype object itself); all of them are truthy. *)
Inductive Value : Type :=
  | VUndefined
  | VNull
  | VBool (b : bool)
  | VNumber (n : Z)
  | VString (s : string)
  | VBuiltin (name : string).

Inductive TypeOf : Type := TNumber | TString | TOther.

Definition typeof (v : Value) : TypeOf :=
  match v with
  | VNumber _ => TNumber
  | VString _ => TString
  | _ => TOther
  end.

(** ToBoolean. *)
Definition truthy (v : Value) : bool :=
  match v with
  | VUndefined | VNull => false
  | VBool b => b
  | VNumber n => negb (n =? 0)%Z
  | VString s => negb (String.eqb s "")
  | VBuiltin _ => true
  end.

(** [a || b]. *)
Definition or_else (a b : Value) : Value := if truthy a then a else b.

(** Number::toString on an integer. *)
Definition string_of_Z (n : Z) : string := NilZero.string_of_int (Z.to_int n).

(** ToPropertyKey / ToString of a primitive. *)
Definition to_property_key (v : Value) : string :=
  match v with
  | VUndefined => "undefined"
  | VNull => "null"
  | VBool true => "true"
  | VBool false => "false"
  | VNumber n => string_of_Z n
  | VString s => s
  | VBuiltin name => "function " +:+ name +:+ "() { [native code] }"
  end.

(** The property names of [Object.prototype]. *)
Definition object_prototype_names : list string :=
  [ "constructor"; "__defineGetter__"; "__defineSetter__"; "hasOwnProperty";
    "__lookupGetter__"; "__lookupSetter__"; "isPrototypeOf";
    "propertyIsEnumerable"; "toString"; "valueOf"; "__proto__";
    "toLocaleString" ].

Fixpoint own_property (props : list (string * Value)) (key : string) : option Value :=
  match props with
  | [] => None
  | (k, v) :: rest => if String.eqb k key then Some v else own_property rest key
  end.

(** [obj[key]] on an object literal: own properties first, then the
    prototype chain, which for a literal is [Object.prototype]. *)
Definition get (props : list (string * Value)) (key : string) : Value :=
  match own_property props key with
  | Some v => v
  | None =>
      if existsb (String.eqb key) object_prototype_names
      then VBuiltin key else VUndefined
  end.

End Js.

(* ===================================================================== *)
(** ** Status codec (booking status code <-> label)                       *)
(* ===================================================================== *)

Module StatusCodec.
Import Js.

Definition mapStatusToInt (statusString : Value) : Value :=
  let statusMap :=
    [ ("Pending", VNumber 1);
      ("Confirmed", VNumber 2);
      ("In Transit", VNumber 3);
      ("Delivered", VNumber 4);
      ("Cancelled", VNumber 5) ] in
  match typeof statusString with
  | TNumber => statusString
  | TString => or_else (get statusMap (to_property_key statusString)) (VNumber 1)
  | TOther => VNumber 1
  end.

Definition mapStatusToString (statusInt : Value) : Value :=
  let statusMap :=
    [ ("1", VString "Pending");
      ("2", VString "Confirmed");
      ("3", VString "In Transit");
      ("4", VString "Delivered");
      ("5", VString "Cancelled") ] in
  or_else (get statusMap (to_property_key statusInt)) (VString "Pending").

(** The five defined labels of the codec table. *)
Definition labels : list string :=
  [ "Pending"; "Confirmed"; "In Transit"; "Delivered"; "Cancelled" ].

End StatusCodec.

(* ===================================================================== *)
(** ** HMAC-SHA256 ([crypto.createHmac('sha256', key)])                   *)
(* ===================================================================== *)

Module Crypto.

(** 32-bit words are integers in [0, 2^32); every operation that can
    leave that range is reduced explicitly. *)
Definition w32 (x : Z) : Z := Z.land x 0xffffffff.
Definition add32 (a b : Z) : Z := w32 (a + b).
Definition shr (n x : Z) : Z := Z.shiftr x n.
Definition rotr (n x : Z) : Z := Z.lor (Z.shiftr x n) (w32 (Z.shiftl x (32 - n))).
Definition not32 (x : Z) : Z := Z.lxor x 0xffffffff.

Definition Ch (x y z : Z) : Z := Z.lxor (Z.land x y) (Z.land (not32 x) z).
Definition Maj (x y z : Z) : Z :=
  Z.lxor (Z.lxor (Z.land x y) (Z.land x z)) (Z.land y z).
Definition Sigma0 (x : Z) : Z := Z.lxor (Z.lxor (rotr 2 x) (rotr 13 x)) (rotr 22 x).
Definition Sigma1 (x : Z) : Z := Z.lxor (Z.lxor (rotr 6 x) (rotr 11 x)) (rotr 25 x).
Definition sigma0 (x : Z) : Z := Z.lxor (Z.lxor (rotr 7 x) (rotr 18 x)) (shr 3 x).
Definition sigma1 (x : Z) : Z := Z.lxor (Z.lxor (rotr 17 x) (rotr 19 x)) (shr 10 x).

(** The round constants are the first 32 bits of the fractional parts
    of the cube roots of the first 64 primes, the initial hash value
    those of the square roots of the first 8 primes. *)
Definition is_prime (n : nat) : bool :=
  forallb (fun d => negb (Nat.eqb (Nat.modulo n d) 0)) (seq 2 (n - 2)).

Definition primes_below (n : nat) : list Z :=
  map Z.of_nat (List.filter is_prime (seq 2 (n - 2))).

(** Largest [r] below [2^bits] with [r^3 <= n], bit by bit. *)
Fixpoint cube_root (bits : nat) (n r : Z) : Z :=
  match bits with
  | O => r
  | S b =>
      let r' := r + Z.shiftl 1 (Z.of_nat b) in
      cube_root b n (if (r' * r' * r' <=? n)%Z then r' else r)
  end.

Definition K256 : list Z :=
  Eval vm_compute in
    map (fun p => w32 (cube_root 36 (Z.shiftl p 96) 0)) (primes_below 312).

Definition H0 : list Z :=
  Eval vm_compute in
    map (fun p => w32 (Z.sqrt (Z.shiftl p 64))) (primes_below 20).

(** Message schedule: [win] holds the last sixteen words. *)
Fixpoint schedule (n : nat) (win : list Z) : list Z :=
  match n with
  | O => []
  | S n' =>
      let w := add32 (add32 (sigma1 (nth 14 win 0)) (nth 9 win 0))
                     (add32 (sigma0 (nth 1 win 0)) (nth 0 win 0)) in
      w :: schedule n' (tl win ++ [w])
  end.

Record regs : Type := Regs { ra : Z; rb : Z; rc : Z; rd : Z; re : Z; rf : Z; rg : Z; rh : Z }.

Definition round (s : regs) (kw : Z * Z) : regs :=
  let t1 := add32 (add32 (add32 (rh s) (Sigma1 (re s))) (Ch (re s) (rf s) (rg s)))
                  (add32 (fst kw) (snd kw)) in
  let t2 := add32 (Sigma0 (ra s)) (Maj (ra s) (rb s) (rc s)) in
  Regs (add32 t1 t2) (ra s) (rb s) (rc s) (add32 (rd s) t1) (re s) (rf s) (rg s).

Definition regs_of (h : list Z) : regs :=
  Regs (nth 0 h 0) (nth 1 h 0) (nth 2 h 0) (nth 3 h 0)
       (nth 4 h 0) (nth 5 h 0) (nth 6 h 0) (nth 7 h 0).

Definition list_of (s : regs) : list Z :=
  [ ra s; rb s; rc s; rd s; re s; rf s; rg s; rh s ].

(** One 512-bit block, given as sixteen words. *)
Definition compress (h : list Z) (block : list Z) : list Z :=
  let w := block ++ schedule 48 block in
  let s := fold_left round (combine K256 w) (regs_of h) in
  map (fun p => add32 (fst p) (snd p)) (combine h (list_of s)).

Fixpoint be_words (fuel : nat) (bytes : list Z) : list Z :=
  match fuel, bytes with
  | S fuel', b0 :: b1 :: b2 :: b3 :: rest =>
      (b0 * 0x1000000 + b1 * 0x10000 + b2 * 0x100 + b3) :: be_words fuel' rest
  | _, _ => []
  end.

Definition be_bytes (nbytes : nat) (x : Z) : list Z :=
  map (fun i => Z.land (Z.shiftr x (8 * Z.of_nat (nbytes - 1 - i))) 0xff) (seq 0 nbytes).

(** Padding: a one bit, zero bits up to 56 mod 64 bytes, then the message
    length in bits as a 64-bit big-endian integer. *)
Definition pad (msg : list Z) : list Z :=
  let len := Z.of_nat (length msg) in
  let zeros := Z.to_nat ((55 - len) mod 64) in
  msg ++ [0x80] ++ repeat 0 zeros ++ be_bytes 8 (8 * len).

Fixpoint blocks (fuel : nat) (h : list Z) (words : list Z) : list Z :=
  match fuel, words with
  | _, [] => h
  | O, _ => h
  | S fuel', _ => blocks fuel' (compress h (firstn 16 words)) (skipn 16 words)
  end.

Definition sha256 (msg : list Z) : list Z :=
  let p := pad msg in
  let ws := be_words (length p) p in
  flat_map (be_bytes 4) (blocks (length ws) H0 ws).

Definition hmac_sha256 (key msg : list Z) : list Z :=
  let k0 := if (64 <? Z.of_nat (length key))%Z then sha256 key else key in
  let k := k0 ++ repeat 0 (64 - length k0) in
  let ipad := map (Z.lxor 0x36) k in
  let opad := map (Z.lxor 0x5c) k in
  sha256 (opad ++ sha256 (ipad ++ msg)).

Definition bytes_of_string (s : string) : list Z :=
  map (fun c => Z.of_N (N_of_ascii c)) (list_ascii_of_string s).

Definition hex_digit (d : Z) : ascii :=
  nth (Z.to_nat d) (list_ascii_of_string "0123456789abcdef") "0"%char.

Definition hex (bytes : list Z) : string :=
  string_of_list_ascii
    (flat_map (fun b => [hex_digit (Z.shiftr b 4); hex_digit (Z.land b 0xf)]) bytes).

(** [crypto.createHmac('sha256', key).update(data).digest('hex')]. *)
Definition createHmac_sha256_hex (key data : string) : string :=
  hex (hmac_sha256 (bytes_of_string key) (bytes_of_string data)).

End Crypto.

(* ===================================================================== *)
(** ** JSON values and [JSON.stringify(value, arrayReplacer)]             *)
(* ===================================================================== *)

Module Json.

(** A payload as the handlers hold it in memory.  [JUndefined] occurs as
    the value of a field that the caller left out.  A number is an
    integer that a double holds exactly and that prints as its digits:
    [JNumber n] stands for a value of the program when [n] is a safe
    integer; other numbers are outside the model.  An object is its
    list of own properties in insertion order. *)
Inductive JSON : Type :=
  | JUndefined
  | JNull
  | JBool (b : bool)
  | JNumber (n : Z)
  | JString (s : string)
  | JArray (items : list JSON)
  | JObject (props : list (string * JSON)).

Definition Obj : Type := list (string * JSON).

(** [Number.isSafeInteger(n)] *)
Definition safe_integer (n : Z) : bool :=
  (-9007199254740991 <=? n)%Z && (n <=? 9007199254740991)%Z.

Fixpoint own_property (o : Obj) (key : string) : option JSON :=
  match o with
  | [] => None
  | (k, v) :: rest => if String.eqb k key then Some v else own_property rest key
  end.

(** [o.key] for a key that [Object.prototype] does not define. *)
Definition get (o : Obj) (key : string) : JSON :=
  match own_property o key with
  | Some v => v
  | None => JUndefined
  end.

(** [delete o.key]. *)
Definition delete_property (key : string) (o : Obj) : Obj :=
  List.filter (fun kv => negb (String.eqb (fst kv) key)) o.

(** [{ ...o, key: v }]: an existing key keeps its position. *)
Fixpoint set_property (key : string) (v : JSON) (o : Obj) : Obj :=
  match o with
  | [] => [(key, v)]
  | (k, w) :: rest =>
      if String.eqb k key then (k, v) :: delete_property key rest
      else (k, w) :: set_property key v rest
  end.

(** [Object.keys(o)].  (The engine lists integer-like keys first; the
    only caller sorts the result, so the model keeps insertion order.) *)
Definition Object_keys (o : Obj) : list string := map fst o.

(** The UTF-16 code units of a string that is held as UTF-8 bytes: a
    character of the basic plane is one unit, a character above it is a
    surrogate pair.  A byte that starts no well-formed character stands
    for itself. *)
Definition byte_of (ch : ascii) : Z := Z.of_N (N_of_ascii ch).

Definition trails (ch : ascii) : bool :=
  (128 <=? byte_of ch)%Z && (byte_of ch <? 192)%Z.

Definition low6 (ch : ascii) : Z := Z.land (byte_of ch) 63.

Fixpoint code_units (s : list ascii) : list Z :=
  match s with
  | [] => []
  | c0 :: rest =>
      let b0 := byte_of c0 in
      let alone := b0 :: code_units rest in
      if (b0 <? 192)%Z then alone
      else
        match rest with
        | [] => alone
        | c1 :: rest1 =>
            if (b0 <? 224)%Z
            then if trails c1
                 then Z.lor (Z.shiftl (Z.land b0 31) 6) (low6 c1) :: code_units rest1
                 else alone
            else
              match rest1 with
              | [] => alone
              | c2 :: rest2 =>
                  if (b0 <? 240)%Z
                  then if trails c1 && trails c2
                       then Z.lor (Z.shiftl (Z.land b0 15) 12)
                              (Z.lor (Z.shiftl (low6 c1) 6) (low6 c2))
                            :: code_units rest2
                       else alone
                  else
                    match rest2 with
                    | [] => alone
                    | c3 :: rest3 =>
                        if (b0 <? 248)%Z && trails c1 && trails c2 && trails c3
                        then
                          let cp := Z.lor (Z.shiftl (Z.land b0 7) 18)
                                      (Z.lor (Z.shiftl (low6 c1) 12)
                                         (Z.lor (Z.shiftl (low6 c2) 6) (low6 c3))) in
                          let v := cp - 65536 in
                          (55296 + Z.shiftr v 10) :: (56320 + Z.land v 1023)
                            :: code_units rest3
                        else alone
                    end
              end
        end
  end.

Fixpoint lex_leb (a b : list Z) : bool :=
  match a, b with
  | [], _ => true
  | _ :: _, [] => false
  | x :: a', y :: b' =>
      if (x <? y)%Z then true else if (x =? y)%Z then lex_leb a' b' else false
  end.

(** Order of [Array.prototype.sort()] without comparator: by code unit.
    (Strings with the same code units are well-formed and equal; for
    the others the bytes decide, so that the order is total.) *)
Definition code_unit_leb (s1 s2 : string) : bool :=
  let u1 := code_units (list_ascii_of_string s1) in
  let u2 := code_units (list_ascii_of_string s2) in
  if lex_leb u1 u2
  then if lex_leb u2 u1 then String.leb s1 s2 else true
  else false.

Definition code_unit_le (s1 s2 : string) : Prop := code_unit_leb s1 s2 = true.

#[global] Instance code_unit_le_dec s1 s2 : Decision (code_unit_le s1 s2).
Proof. unfold code_unit_le. apply _. Defined.

Definition Array_sort (l : list string) : list string := merge_sort code_unit_le l.

(** QuoteJSONString. *)
Definition quote_mark : string := String "034"%char EmptyString.

Definition escape_char (c : ascii) : string :=
  let n := Z.of_N (N_of_ascii c) in
  if (n =? 8)%Z then "\b"
  else if (n =? 9)%Z then "\t"
  else if (n =? 10)%Z then "\n"
  else if (n =? 12)%Z then "\f"
  else if (n =? 13)%Z then "\r"
  else if (n =? 34)%Z then "\" +:+ quote_mark
  else if (n =? 92)%Z then "\\"
  else if (n <? 32)%Z then
    "\u00" +:+ String (Crypto.hex_digit (Z.shiftr n 4))
                 (String (Crypto.hex_digit (Z.land n 0xf)) EmptyString)
  else String c EmptyString.

Fixpoint escape (s : string) : string :=
  match s with
  | EmptyString => EmptyString
  | String c rest => escape_char c +:+ escape rest
  end.

Definition quote (s : string) : string := quote_mark +:+ escape s +:+ quote_mark.

Fixpoint join (sep : string) (parts : list string) : string :=
  match parts with
  | [] => ""
  | [x] => x
  | x :: rest => x +:+ sep +:+ join sep rest
  end.

(** The replacer array becomes the property list: its strings, without
    repetitions, in order of first occurrence. *)
Fixpoint property_list (replacer : list string) (seen : list string) : list string :=
  match replacer with
  | [] => []
  | k :: rest =>
      if existsb (String.eqb k) seen then property_list rest seen
      else k :: property_list rest (k :: seen)
  end.

Fixpoint lookup_serialized (ms : list (string * option string)) (key : string)
  : option (option string) :=
  match ms with
  | [] => None
  | (k, r) :: rest => if String.eqb k key then Some r else lookup_serialized rest key
  end.

(** What [Get(o, P)] serializes to when [P] is not an own property of
    the plain object [o]: the inherited functions are dropped like
    [undefined]; [__proto__] yields [Object.prototype], whose only
    serializable member under a property list holding [__proto__] is
    its own [__proto__], which is [null]. *)
Definition inherited_member (P : string) : option string :=
  if String.eqb P "__proto__"
  then Some ("{" +:+ quote "__proto__" +:+ ":null}")
  else None.

(** One member [P] of SerializeJSONObject, given the serialized own
    properties of the object. *)
Definition member (ms : list (string * option string)) (P : string) : option string :=
  match lookup_serialized ms P with
  | Some (Some str) => Some (quote P +:+ ":" +:+ str)
  | Some None => None
  | None =>
      match inherited_member P with
      | Some str => Some (quote P +:+ ":" +:+ str)
      | None => None
      end
  end.

(** SerializeJSONProperty with property list [K] and no indentation;
    [None] is [undefined].  An object emits exactly the keys of [K], in
    the order of [K], at every depth. *)
Fixpoint serialize (K : list string) (v : JSON) : option string :=
  match v with
  | JUndefined => None
  | JNull => Some "null"
  | JBool true => Some "true"
  | JBool false => Some "false"
  | JNumber n => Some (Js.string_of_Z n)
  | JString s => Some (quote s)
  | JArray items =>
      let parts := map (fun x => default "null" (serialize K x)) items in
      Some ("[" +:+ join "," parts +:+ "]")
  | JObject props =>
      let ms := map (fun kv => match kv with (k, x) => (k, serialize K x) end) props in
      Some ("{" +:+ join "," (omap (member ms) K) +:+ "}")
  end.

(** [JSON.stringify(value, replacer)] for an array replacer. *)
Definition JSON_stringify (value : JSON) (replacer : list string) : option string :=
  serialize (property_list replacer []) value.

(** Two payloads with the same fields and values, whose objects may
    list their keys in different orders, at any depth. *)
Inductive same_fields : JSON -> JSON -> Prop :=
  | same_value v : same_fields v v
  | same_array xs ys :
      Forall2 same_fields xs ys -> same_fields (JArray xs) (JArray ys)
  | same_object ps qs qs' :
      Forall2 (fun p q => fst p = fst q /\ same_fields (snd p) (snd q)) ps qs ->
      Permutation qs qs' ->
      List.NoDup (map fst ps) ->
      same_fields (JObject ps) (JObject qs').

End Json.

(* ===================================================================== *)
(** ** Packing-list attestation                                           *)
(* ===================================================================== *)

Module Attestation.
Import Json.

(** [process.env]. *)
Abbreviation Env := (gmap string string).

Definition default_secret : string :=
  "your-super-secret-vpl-key-change-this-in-production".

(** [process.env.VPL_SECRET_KEY || '...']: an unset or empty variable
    selects the literal. *)
Definition VPL_SECRET_KEY (env : Env) : string :=
  match env !! "VPL_SECRET_KEY" with
  | Some s => if String.eqb s "" then default_secret else s
  | None => default_secret
  end.

(** The string that is fed to the HMAC. *)
Definition dataString (packingListData : Obj) : string :=
  let cleanData := delete_property "securityHash" packingListData in
  default "undefined"
    (JSON_stringify (JObject cleanData) (Array_sort (Object_keys cleanData))).

Definition generateSecurityHash (env : Env) (packingListData : Obj) : string :=
  Crypto.createHmac_sha256_hex (VPL_SECRET_KEY env) (dataString packingListData).

Inductive Verification : Type :=
  | Verified (isValid : bool) (uploadedHash : JSON) (calculatedHash : string)
  | VerifyFailed (error : string).

Definition isValid (r : Verification) : bool :=
  match r with
  | Verified b _ _ => b
  | VerifyFailed _ => false
  end.

(** [uploadedHash === calculatedHash]. *)
Definition strict_equal_string (v : JSON) (s : string) : bool :=
  match v with
  | JString t => String.eqb t s
  | _ => false
  end.

(** The log line evaluates [uploadedHash?.substring(0, 8)]: on a value
    that is neither nullish nor a string the call throws, and the
    handler of the exception reports an invalid seal. *)
Definition verifySecurityHash (env : Env) (packingListData : Obj) : Verification :=
  let uploadedHash := get packingListData "securityHash" in
  let calculatedHash := generateSecurityHash env packingListData in
  let isValid := strict_equal_string uploadedHash calculatedHash in
  match uploadedHash with
  | JUndefined | JNull | JString _ => Verified isValid uploadedHash calculatedHash
  | _ => VerifyFailed "uploadedHash?.substring is not a function"
  end.

(** The generation endpoint attaches the seal: [{ ...vplData, securityHash }]. *)
Definition attach (vplData : Obj) (securityHash : string) : Obj :=
  set_property "securityHash" (JString securityHash) vplData.

End Attestation.

(* ===================================================================== *)
(** ** Milestone actions over a transactional store                       *)
(* ===================================================================== *)

Module Milestones.

(** *** Tables

    Rows carry the primary key and the columns that a milestone handler
    reads or writes; timestamps are integers. *)

Record Order : Type := mkOrder {
  order_orderid : Z;
  orderstatus : string }.

Record POInvoice : Type := mkPOInvoice {
  poinvoiceid : Z;
  invoice_orderid : Z;
  expectedstockstatus : string;
  invoice_updatedat : Z }.

Record Milestone : Type := mkMilestone {
  milestoneid : Z;
  milestone_orderid : Z;
  milestone_userid : Z;
  milestonetype : string;
  status : string;
  title : string;
  description : string;
  duedate : option Z;
  completeddate : option Z;
  completedbyuserid : option Z;
  milestone_priority : string;
  isvisible : bool;
  milestone_createdat : Z;
  milestone_updatedat : Z }.

Record Communication : Type := mkCommunication {
  communicationid : Z;
  communication_orderid : Z;
  communication_userid : Z;
  messagetype : string;
  subject : string;
  messagebody : string;
  attachmentpath : option string;
  isread : bool;
  communication_priority : string;
  communication_createdat : Z;
  communication_updatedat : Z }.

Record Tables : Type := mkTables {
  orders : list Order;
  poinvoice : list POInvoice;
  milestones : list Milestone;
  communications : list Communication }.

(** The SERIAL counters.  A sequence is not transactional: a value that
    was drawn stays drawn when the transaction rolls back. *)
Record Sequences : Type := mkSequences {
  milestones_milestoneid_seq : Z;
  communications_communicationid_seq : Z }.

Record Database : Type := mkDatabase {
  tables : Tables;
  sequences : Sequences }.

(** *** Statements *)

Inductive Sql : Type :=
  | BEGIN
  | COMMIT
  | ROLLBACK
  (** SELECT COUNT( * ) FROM milestones WHERE orderid = $1
      AND milestonetype = .. [AND status = ..] *)
  | SELECT_COUNT_milestones (orderid : option Z) (mtype : string) (st : option string)
  (** INSERT INTO milestones (..) VALUES ($1, $2, type, 'completed',
      title, description, NOW(), $2, NOW(), NOW()) *)
  | INSERT_milestones (orderid userid : option Z) (mtype ttl descr : string)
  (** UPDATE orders SET orderstatus = .. WHERE orderid = $1 *)
  | UPDATE_orders (st : string) (orderid : option Z)
  (** UPDATE poinvoice SET expectedstockstatus = .., updatedat = NOW()
      WHERE orderid = $1 *)
  | UPDATE_poinvoice (st : string) (orderid : option Z)
  (** INSERT INTO communications (..) VALUES ($1, $2,
      'milestone_update', subject, body, NOW(), NOW()) *)
  | INSERT_communications (orderid userid : option Z) (subj body : string).

Inductive DbError : Type :=
  | NumericValueOutOfRange
  | CharacterNotInRepertoire
  | NotNullViolation (column : string)
  | ForeignKeyViolation (constraint : string)
  | InFailedTransaction
  | ConnectionFailure.

(** The values of an INT column.  The ids of the four tables are INT or
    SERIAL, so each id parameter of a statement is read as an INT when
    the statement is bound: an integer outside the range is refused
    there, before the statement does anything; NULL is bound as it
    is. *)
Definition int4 (v : Z) : bool :=
  (-2147483648 <=? v)%Z && (v <=? 2147483647)%Z.

Definition binds (p : option Z) : bool :=
  match p with Some v => int4 v | None => true end.

Definition parameters (s : Sql) : list (option Z) :=
  match s with
  | BEGIN | COMMIT | ROLLBACK => []
  | SELECT_COUNT_milestones orderid _ _ => [orderid]
  | INSERT_milestones orderid userid _ _ _ => [orderid; userid]
  | UPDATE_orders _ orderid => [orderid]
  | UPDATE_poinvoice _ orderid => [orderid]
  | INSERT_communications orderid userid _ _ => [orderid; userid]
  end.

Inductive QueryResult : Type :=
  | Command
  | Count (count : Z)
  | Returning (id : Z).

(** [parseInt(result.rows[0].count)] *)
Definition rows0_count (r : QueryResult) : Z :=
  match r with Count n => n | _ => 0 end.

(** [result.rows[0].milestoneid] *)
Definition rows0_milestoneid (r : QueryResult) : option Z :=
  match r with Returning id => Some id | _ => None end.

(** A comparison with a NULL parameter selects no row. *)
Definition param_is (p : option Z) (x : Z) : bool :=
  match p with Some v => (v =? x)%Z | None => false end.

Definition status_is (st : option string) (s : string) : bool :=
  match st with Some v => String.eqb v s | None => true end.

Definition order_exists (t : Tables) (o : Z) : bool :=
  existsb (fun r => (order_orderid r =? o)%Z) (orders t).

Definition count_milestones (t : Tables) (orderid : option Z) (mtype : string)
    (st : option string) : Z :=
  Z.of_nat (length (List.filter
    (fun m => param_is orderid (milestone_orderid m)
              && String.eqb (milestonetype m) mtype
              && status_is st (status m)) (milestones t))).

Definition new_milestone (id o u : Z) (mtype ttl descr : string) (now : Z) : Milestone :=
  {| milestoneid := id; milestone_orderid := o; milestone_userid := u;
     milestonetype := mtype; status := "completed";
     title := ttl; description := descr; duedate := None;
     completeddate := Some now; completedbyuserid := Some u;
     milestone_priority := "medium"; isvisible := true;
     milestone_createdat := now; milestone_updatedat := now |}.

Definition new_communication (id o u : Z) (subj body : string) (now : Z) : Communication :=
  {| communicationid := id; communication_orderid := o; communication_userid := u;
     messagetype := "milestone_update"; subject := subj; messagebody := body;
     attachmentpath := None; isread := false; communication_priority := "normal";
     communication_createdat := now; communication_updatedat := now |}.

Definition set_orderstatus (st : string) (orderid : option Z) (r : Order) : Order :=
  if param_is orderid (order_orderid r)
  then {| order_orderid := order_orderid r; orderstatus := st |}
  else r.

Definition set_expectedstockstatus (st : string) (orderid : option Z) (now : Z)
    (r : POInvoice) : POInvoice :=
  if param_is orderid (invoice_orderid r)
  then {| poinvoiceid := poinvoiceid r; invoice_orderid := invoice_orderid r;
          expectedstockstatus := st; invoice_updatedat := now |}
  else r.

Definition with_orders (t : Tables) (x : list Order) : Tables :=
  mkTables x (poinvoice t) (milestones t) (communications t).
Definition with_poinvoice (t : Tables) (x : list POInvoice) : Tables :=
  mkTables (orders t) x (milestones t) (communications t).
Definition with_milestones (t : Tables) (x : list Milestone) : Tables :=
  mkTables (orders t) (poinvoice t) x (communications t).
Definition with_communications (t : Tables) (x : list Communication) : Tables :=
  mkTables (orders t) (poinvoice t) (milestones t) x.

(** The NOT NULL and FOREIGN KEY constraints shared by [milestones] and
    [communications]: both [orderid] and [userid] are NOT NULL and
    [orderid] references [orders]. *)
Definition check_insert (t : Tables) (orderid userid : option Z) (fk : string)
  : Z * Z + DbError :=
  match orderid, userid with
  | None, _ => inr (NotNullViolation "orderid")
  | Some _, None => inr (NotNullViolation "userid")
  | Some o, Some u =>
      if order_exists t o then inl (o, u) else inr (ForeignKeyViolation fk)
  end.

(** One data statement on the current tables.  Its parameters are bound
    first; then an INSERT draws its key from the sequence before the
    constraints are checked. *)
Definition exec (now : Z) (s : Sql) (t : Tables) (q : Sequences)
  : Sequences * (Tables * QueryResult + DbError) :=
  if negb (forallb binds (parameters s)) then (q, inr NumericValueOutOfRange) else
  match s with
  | BEGIN | COMMIT | ROLLBACK => (q, inl (t, Command))
  | SELECT_COUNT_milestones orderid mtype st =>
      (q, inl (t, Count (count_milestones t orderid mtype st)))
  | INSERT_milestones orderid userid mtype ttl descr =>
      let id := milestones_milestoneid_seq q + 1 in
      let q' := mkSequences id (communications_communicationid_seq q) in
      match check_insert t orderid userid "fk_milestones_order" with
      | inl (o, u) =>
          (q', inl (with_milestones t
                      (milestones t ++ [new_milestone id o u mtype ttl descr now]),
                    Returning id))
      | inr e => (q', inr e)
      end
  | UPDATE_orders st orderid =>
      (q, inl (with_orders t (map (set_orderstatus st orderid) (orders t)), Command))
  | UPDATE_poinvoice st orderid =>
      (q, inl (with_poinvoice t
                 (map (set_expectedstockstatus st orderid now) (poinvoice t)), Command))
  | INSERT_communications orderid userid subj body =>
      let id := communications_communicationid_seq q + 1 in
      let q' := mkSequences (milestones_milestoneid_seq q) id in
      match check_insert t orderid userid "fk_communications_order" with
      | inl (o, u) =>
          (q', inl (with_communications t
                      (communications t ++ [new_communication id o u subj body now]),
                    Returning id))
      | inr e => (q', inr e)
      end
  end.

(** *** A pooled connection *)

Inductive TxState : Type :=
  | Idle
  | InTransaction (working : Tables)
  | Aborted.

Record Client : Type := mkClient {
  committed : Tables;
  client_sequences : Sequences;
  transaction : TxState;
  sent : nat }.

(** What a request does not control: the value of NOW() and the
    statements that fail for reasons outside the data (connection lost,
    server unavailable); [faulty n] says that the [n]-th statement sent
    on the connection is rejected without effect. *)
Record Ctx : Type := mkCtx {
  now : Z;
  faulty : nat -> bool }.

(** Handler code: reads the context, drives the connection, and either
    yields a value or throws. *)
Definition M (A : Type) : Type := Ctx -> Client -> Client * (A + DbError).

#[global] Instance M_ret : MRet M := fun A a _ c => (c, inl a).
#[global] Instance M_bind : MBind M := fun A B f m ctx c =>
  match m ctx c with
  | (c', inl a) => f a ctx c'
  | (c', inr e) => (c', inr e)
  end.

(** [try { body } catch (err) { handler }] *)
Definition try_catch {A : Type} (body : M A) (handler : DbError -> M A) : M A :=
  fun ctx c =>
    match body ctx c with
    | (c', inl a) => (c', inl a)
    | (c', inr e) => handler e ctx c'
    end.

(** [await client.query(s)] *)
Definition query (s : Sql) : M QueryResult := fun ctx c =>
  let n := sent c in
  if faulty ctx n
  then (mkClient (committed c) (client_sequences c) (transaction c) (S n),
        inr ConnectionFailure)
  else
    match s, transaction c with
    | BEGIN, Idle =>
        (mkClient (committed c) (client_sequences c) (InTransaction (committed c)) (S n),
         inl Command)
    | BEGIN, InTransaction w =>
        (mkClient (committed c) (client_sequences c) (InTransaction w) (S n), inl Command)
    | COMMIT, InTransaction w =>
        (mkClient w (client_sequences c) Idle (S n), inl Command)
    | COMMIT, _ | ROLLBACK, _ =>
        (mkClient (committed c) (client_sequences c) Idle (S n), inl Command)
    | _, Aborted =>
        (mkClient (committed c) (client_sequences c) Aborted (S n),
         inr InFailedTransaction)
    | _, InTransaction w =>
        match exec (now ctx) s w (client_sequences c) with
        | (q, inl (w', r)) =>
            (mkClient (committed c) q (InTransaction w') (S n), inl r)
        | (q, inr e) => (mkClient (committed c) q Aborted (S n), inr e)
        end
    | _, Idle =>
        match exec (now ctx) s (committed c) (client_sequences c) with
        | (q, inl (t', r)) => (mkClient t' q Idle (S n), inl r)
        | (q, inr e) => (mkClient (committed c) q Idle (S n), inr e)
        end
    end.

(** *** Requests and responses *)

(** The body after the cleanup middleware, which turns an absent or
    empty id into null and a numeric string into its number: each id is
    an integer or null. *)
Record Body : Type := mkBody {
  orderid : option Z;
  userid : option Z }.

Inductive Reason : Type :=
  | Message (text : string)
  | Thrown (err : DbError).

Inductive Payload : Type :=
  | success (message : string) (milestoneId : option Z)
  | error (reason : Reason).

Record Response : Type := mkResponse {
  code : Z;
  json : Payload }.

(** [!x] on a request field. *)
Definition missing (x : option Z) : bool :=
  match x with Some v => (v =? 0)%Z | None => true end.

(** [pool.connect()] .. [finally { client.release() }]: the pool hands
    out a connection with no open transaction, the handler runs on it,
    and work that is still uncommitted when the connection is given
    back never becomes visible.  A handler whose [catch] block throws
    sends no response. *)
Definition with_client (h : M Response) (ctx : Ctx) (db : Database)
  : Database * option Response :=
  match h ctx (mkClient (tables db) (sequences db) Idle 0) with
  | (c, inl resp) => (mkDatabase (committed c) (client_sequences c), Some resp)
  | (c, inr _) => (mkDatabase (committed c) (client_sequences c), None)
  end.

(** *** The five guarded handlers

    [ensureCommunicationsHubTables()], which [confirm_order] awaits
    after BEGIN, creates missing tables through the pool and swallows
    its own errors; the tables exist here, so it sends nothing on the
    handler's connection. *)

Definition Endpoint : Type := Body -> Ctx -> Database -> Database * option Response.

(** POST /api/milestones/confirm-order *)
Definition confirm_order : Endpoint := fun req =>
  if missing (orderid req) || missing (userid req)
  then fun _ db =>
    (db, Some (mkResponse 400 (error (Message "orderid and userid are required"))))
  else with_client (try_catch
    (query BEGIN ;;
     existingCheck ← query (SELECT_COUNT_milestones (orderid req) "order_confirmed" None);
     if (rows0_count existingCheck >? 0)%Z
     then
       query ROLLBACK ;;
       mret (mkResponse 400 (error (Message "Order already confirmed")))
     else
       milestoneResult ← query (INSERT_milestones (orderid req) (userid req)
         "order_confirmed" "Order Confirmed" "Purchase order confirmed by exporter");
       let milestoneId := rows0_milestoneid milestoneResult in
       query (UPDATE_orders "Confirmed" (orderid req)) ;;
       query (INSERT_communications (orderid req) (userid req) "Order Confirmed"
         "Purchase order has been confirmed by the exporter. Production can begin.") ;;
       query COMMIT ;;
       mret (mkResponse 200 (success "Order confirmed successfully" milestoneId)))
    (fun err =>
       query ROLLBACK ;;
       mret (mkResponse 500 (error (Thrown err))))).

(** POST /api/milestones/ready-to-ship *)
Definition ready_to_ship : Endpoint := fun req =>
  with_client (try_catch
    (query BEGIN ;;
     confirmCheck ← query (SELECT_COUNT_milestones (orderid req)
       "order_confirmed" (Some "completed"));
     if (rows0_count confirmCheck =? 0)%Z
     then
       query ROLLBACK ;;
       mret (mkResponse 400 (error (Message
         "Order must be confirmed before marking as ready to ship")))
     else
       query (UPDATE_poinvoice "confirmed" (orderid req)) ;;
       query (INSERT_milestones (orderid req) (userid req)
         "ready_to_ship" "Ready to Ship"
         "Production complete. Goods prepared and ready for dispatch.") ;;
       query (INSERT_communications (orderid req) (userid req) "Goods Ready to Ship"
         "Production is complete. All goods are prepared and ready for collection/dispatch.") ;;
       query COMMIT ;;
       mret (mkResponse 200 (success "Goods marked as ready to ship" None)))
    (fun err =>
       query ROLLBACK ;;
       mret (mkResponse 500 (error (Thrown err))))).

(** POST /api/milestones/goods-shipped *)
Definition goods_shipped : Endpoint := fun req =>
  with_client (try_catch
    (query BEGIN ;;
     readyCheck ← query (SELECT_COUNT_milestones (orderid req)
       "ready_to_ship" (Some "completed"));
     if (rows0_count readyCheck =? 0)%Z
     then
       query ROLLBACK ;;
       mret (mkResponse 400 (error (Message
         "Goods must be marked as 'Ready to Ship' before shipping")))
     else
       query (UPDATE_poinvoice "shipped" (orderid req)) ;;
       query (INSERT_milestones (orderid req) (userid req)
         "goods_shipped" "Goods Shipped"
         "Goods have been dispatched and are now in transit.") ;;
       query (UPDATE_orders "Shipped" (orderid req)) ;;
       query (INSERT_communications (orderid req) (userid req) "Goods Shipped"
         "Goods have been dispatched from origin and are now in transit to destination.") ;;
       query COMMIT ;;
       mret (mkResponse 200 (success "Goods marked as shipped" None)))
    (fun err =>
       query ROLLBACK ;;
       mret (mkResponse 500 (error (Thrown err))))).

(** POST /api/milestones/goods-arrived *)
Definition goods_arrived : Endpoint := fun req =>
  with_client (try_catch
    (query BEGIN ;;
     shippedCheck ← query (SELECT_COUNT_milestones (orderid req)
       "goods_shipped" (Some "completed"));
     if (rows0_count shippedCheck =? 0)%Z
     then
       query ROLLBACK ;;
       mret (mkResponse 400 (error (Message
         "Goods must be shipped before they can arrive")))
     else
       query (UPDATE_poinvoice "arrived" (orderid req)) ;;
       query (INSERT_milestones (orderid req) (userid req)
         "goods_arrived" "Goods Arrived"
         "Shipment has arrived at destination and is ready for collection.") ;;
       query (INSERT_communications (orderid req) (userid req)
         "Goods Arrived at Destination"
         "Shipment has arrived at destination port/facility and is ready for collection or final delivery.") ;;
       query COMMIT ;;
       mret (mkResponse 200 (success "Goods marked as arrived" None)))
    (fun err =>
       query ROLLBACK ;;
       mret (mkResponse 500 (error (Thrown err))))).

(** POST /api/milestones/goods-received *)
Definition goods_received : Endpoint := fun req =>
  with_client (try_catch
    (query BEGIN ;;
     arrivedCheck ← query (SELECT_COUNT_milestones (orderid req)
       "goods_arrived" (Some "completed"));
     if (rows0_count arrivedCheck =? 0)%Z
     then
       query ROLLBACK ;;
       mret (mkResponse 400 (error (Message
         "Goods must arrive before they can be received")))
     else
       query (UPDATE_poinvoice "completed" (orderid req)) ;;
       query (INSERT_milestones (orderid req) (userid req)
         "goods_received" "Goods Received & Verified"
         "Final delivery completed and goods verified by importer.") ;;
       query (UPDATE_orders "Completed" (orderid req)) ;;
       query (INSERT_communications (orderid req) (userid req) "Order Complete"
         "Goods have been received, verified, and the order is now complete. Thank you for your business!") ;;
       query COMMIT ;;
       mret (mkResponse 200 (success "Goods received and order completed" None)))
    (fun err =>
       query ROLLBACK ;;
       mret (mkResponse 500 (error (Thrown err))))).

(** The five routes. *)
Inductive Action : Type :=
  | ConfirmOrder | ReadyToShip | GoodsShipped | GoodsArrived | GoodsReceived.

Definition handle (a : Action) : Endpoint :=
  match a with
  | ConfirmOrder => confirm_order
  | ReadyToShip => ready_to_ship
  | GoodsShipped => goods_shipped
  | GoodsArrived => goods_arrived
  | GoodsReceived => goods_received
  end.

(** A request as it reaches the server, with what its environment does
    to it. *)
Record Call : Type := mkCall {
  action : Action;
  body : Body;
  ctx : Ctx }.

Definition serve (db : Database) (c : Call) : Database :=
  fst (handle (action c) (body c) (ctx c) db).

(** Requests served one after the other. *)
Definition serve_all (calls : list Call) (db : Database) : Database :=
  fold_left serve calls db.

End Milestones.

(* ===================================================================== *)
(** ** The milestone design, as the specification words it                *)
(* ===================================================================== *)

Module MilestoneSpec.
Import Milestones.

(** The [milestonetype] that an action records. *)
Definition milestone_type (a : Action) : string :=
  match a with
  | ConfirmOrder => "order_confirmed"
  | ReadyToShip => "ready_to_ship"
  | GoodsShipped => "goods_shipped"
  | GoodsArrived => "goods_arrived"
  | GoodsReceived => "goods_received"
  end.

(** The canonical chain. *)
Definition chain : list Action :=
  [ ConfirmOrder; ReadyToShip; GoodsShipped; GoodsArrived; GoodsReceived ].

(** Transition table: the predecessor that an action requires. *)
Definition predecessor (a : Action) : option Action :=
  match a with
  | ConfirmOrder => None
  | ReadyToShip => Some ConfirmOrder
  | GoodsShipped => Some ReadyToShip
  | GoodsArrived => Some GoodsShipped
  | GoodsReceived => Some GoodsArrived
  end.

(** Cascade tables: the invoice status and the order status that an
    action writes, if any. *)
Definition invoice_status_of (a : Action) : option string :=
  match a with
  | ConfirmOrder => None
  | ReadyToShip => Some "confirmed"
  | GoodsShipped => Some "shipped"
  | GoodsArrived => Some "arrived"
  | GoodsReceived => Some "completed"
  end.

Definition order_status_of (a : Action) : option string :=
  match a with
  | ConfirmOrder => Some "Confirmed"
  | GoodsShipped => Some "Shipped"
  | GoodsReceived => Some "Completed"
  | ReadyToShip | GoodsArrived => None
  end.

Definition row_of (o : Z) (ty : string) (m : Milestone) : bool :=
  (o =? milestone_orderid m)%Z && String.eqb (milestonetype m) ty.

Definition completed_row (o : Z) (ty : string) (m : Milestone) : bool :=
  row_of o ty m && String.eqb (status m) "completed".

(** The rows of the milestones table for one (order, type). *)
Definition rows_of (t : Tables) (o : Z) (a : Action) : list Milestone :=
  List.filter (row_of o (milestone_type a)) (milestones t).

(** Milestone [a] is completed for order [o]. *)
Definition is_completed (t : Tables) (o : Z) (a : Action) : bool :=
  existsb (completed_row o (milestone_type a)) (milestones t).

(** The types that are completed for order [o] are exactly the first
    [n] of the chain. *)
Definition completed_prefix (t : Tables) (o : Z) (n : nat) : Prop :=
  forall ty : string,
    existsb (completed_row o ty) (milestones t) = true
    <-> In ty (map milestone_type (firstn n chain)).

(** Every milestone row of order [o] is a completed row of one of the
    five types, and a completed type has its predecessor completed. *)
Definition chain_closed (t : Tables) (o : Z) : Prop :=
  (forall m, In m (milestones t) -> milestone_orderid m = o ->
     status m = "completed" /\ exists a, milestonetype m = milestone_type a)
  /\ (forall a p, predecessor a = Some p ->
        is_completed t o a = true -> is_completed t o p = true).

(** The invoices and the orders after the cascade of [a] on order [o]:
    every invoice of the order carries the mapped status and the time
    of the request, the order carries the mapped status, and every
    other row is the old one. *)
Definition cascade_invoices (a : Action) (o now : Z) (l : list POInvoice)
  : list POInvoice :=
  match invoice_status_of a with
  | Some st =>
      map (fun i => if (invoice_orderid i =? o)%Z
                    then mkPOInvoice (poinvoiceid i) o st now
                    else i) l
  | None => l
  end.

Definition cascade_orders (a : Action) (o : Z) (l : list Order) : list Order :=
  match order_status_of a with
  | Some st =>
      map (fun r => if (order_orderid r =? o)%Z then mkOrder o st else r) l
  | None => l
  end.

(** The same, field by field: what the cascade of [a] on order [o]
    makes of one invoice, and of one order. *)
Definition invoice_cascaded (a : Action) (o now : Z) (old new : POInvoice) : Prop :=
  poinvoiceid new = poinvoiceid old
  /\ invoice_orderid new = invoice_orderid old
  /\ match invoice_status_of a with
     | Some st =>
         if (invoice_orderid old =? o)%Z
         then expectedstockstatus new = st /\ invoice_updatedat new = now
         else expectedstockstatus new = expectedstockstatus old
              /\ invoice_updatedat new = invoice_updatedat old
     | None =>
         expectedstockstatus new = expectedstockstatus old
         /\ invoice_updatedat new = invoice_updatedat old
     end.

Definition order_cascaded (a : Action) (o : Z) (old new : Order) : Prop :=
  order_orderid new = order_orderid old
  /\ match order_status_of a with
     | Some st =>
         if (order_orderid old =? o)%Z
         then orderstatus new = st
         else orderstatus new = orderstatus old
     | None => orderstatus new = orderstatus old
     end.

(** All four effects of the transition [a] on order [o] by user [u]. *)
Definition cascade_applied (a : Action) (o u now : Z) (t t' : Tables) : Prop :=
  orders t' = cascade_orders a o (orders t)
  /\ poinvoice t' = cascade_invoices a o now (poinvoice t)
  /\ (exists m, milestones t' = milestones t ++ [m]
        /\ milestone_orderid m = o /\ milestonetype m = milestone_type a
        /\ status m = "completed"
        /\ completeddate m = Some now /\ completedbyuserid m = Some u)
  /\ (exists c, communications t' = communications t ++ [c]
        /\ communication_orderid c = o /\ communication_userid c = u
        /\ messagetype c = "milestone_update").

(** What a handler requires of the stored milestones before it writes:
    the predecessor completed, or, for the head of the chain, no row of
    its own type. *)
Definition guard_passed (a : Action) (t : Tables) (o : Z) : Prop :=
  match predecessor a with
  | Some p => is_completed t o p = true
  | None => rows_of t o a = []
  end.

(** No statement of the request fails for reasons outside the data. *)
Definition fault_free (c : Ctx) : Prop := forall n, faulty c n = false.

Definition is_success (r : option Response) : Prop :=
  exists msg id, r = Some (mkResponse 200 (success msg id)).

Definition is_client_error (r : option Response) : Prop :=
  exists msg, r = Some (mkResponse 400 (error (Message msg))).

End MilestoneSpec.

(** The running example of the specification: order 42, not yet
    confirmed, with two invoices; another order next to it. *)
Module ScenarioA.
Import Milestones.

Definition store : Database :=
  mkDatabase
    (mkTables
       [ mkOrder 41 "Pending"; mkOrder 42 "Pending" ]
       [ mkPOInvoice 1 42 "planning" 0; mkPOInvoice 2 41 "planning" 0;
         mkPOInvoice 3 42 "planning" 0 ]
       [] [])
    (mkSequences 0 0).

(** The request body [{orderid: 42, userid: 7}]. *)
Definition request : Body := mkBody (Some 42) (Some 7).

(** A request during which every statement reaches the store. *)
Definition undisturbed (now : Z) : Ctx := mkCtx now (fun _ => false).

Definition call (a : Action) (now : Z) : Call := mkCall a request (undisturbed now).

End ScenarioA.

(* ===================================================================== *)
(** ** Manual status overrides                                            *)
(* ===================================================================== *)

(** The two routes that write a status directly, outside the guarded
    milestone handlers.  Both send one UPDATE through the pool, which
    commits on its own; [faulty c 0] says that this statement is lost.
    The [ensure..Table()] calls before it create missing tables and
    swallow their own errors; the tables exist here.  A path parameter
    is the integer it denotes; the key columns are SERIAL, so an id
    outside the INT range is refused when the statement is bound. *)
Module Overrides.
Import Milestones.

(** *** PUT /api/expected-stock-status/:invoiceId *)

Definition validStatuses : list string :=
  [ "planning"; "confirmed"; "shipped"; "arrived"; "completed" ].

(** [validStatuses.includes(status)] on a value of the request body:
    only a string can be an element. *)
Definition includes (l : list string) (v : Js.Value) : bool :=
  match v with
  | Js.VString s => existsb (String.eqb s) l
  | _ => false
  end.

(** The string that an included value is. *)
Definition text_of (v : Js.Value) : string :=
  match v with
  | Js.VString s => s
  | _ => ""
  end.

Inductive StockReply : Type :=
  | status_updated (message : string) (invoiceId : Z) (newStatus : string)
  | stock_error (reason : Reason).

Record StockResponse : Type := mkStockResponse {
  stock_code : Z;
  stock_json : StockReply }.

(** UPDATE poinvoice SET expectedstockstatus = $2, updatedat = NOW()
    WHERE poinvoiceid = $1 *)
Definition set_invoice_status (id : Z) (st : string) (now : Z) (r : POInvoice)
  : POInvoice :=
  if (id =? poinvoiceid r)%Z
  then {| poinvoiceid := poinvoiceid r; invoice_orderid := invoice_orderid r;
          expectedstockstatus := st; invoice_updatedat := now |}
  else r.

(** [result.rowCount] of that UPDATE. *)
Definition invoice_rowCount (id : Z) (t : Tables) : Z :=
  Z.of_nat (length (List.filter (fun r => (id =? poinvoiceid r)%Z) (poinvoice t))).

(** The handler, on the status as it is sent: the cleanup before the
    route changes no string that is one of the five, and what it puts
    for a string that it changes, null or a number, is none of them. *)
Definition put_expected_stock_status (invoiceId : Z) (status : Js.Value)
    (c : Ctx) (db : Database) : Database * StockResponse :=
  if negb (includes validStatuses status)
  then (db, mkStockResponse 400 (stock_error (Message
         ("Invalid status. Must be one of: " +:+ Json.join ", " validStatuses))))
  else
    let st := text_of status in
    if faulty c 0
    then (db, mkStockResponse 500 (stock_error (Thrown ConnectionFailure)))
    else if negb (int4 invoiceId)
    then (db, mkStockResponse 500 (stock_error (Thrown NumericValueOutOfRange)))
    else
      let t := tables db in
      let db' := mkDatabase
        (with_poinvoice t (map (set_invoice_status invoiceId st (now c)) (poinvoice t)))
        (sequences db) in
      if (invoice_rowCount invoiceId t =? 0)%Z
      then (db', mkStockResponse 404 (stock_error (Message "Invoice not found")))
      else (db', mkStockResponse 200
              (status_updated ("Status updated to '" +:+ st +:+ "' successfully")
                 invoiceId st)).

(** *** PUT /api/milestones/:milestoneId *)

(** Characters of a UTF-8 string: the bytes that do not continue a
    character. *)
Definition continues (ch : ascii) : bool :=
  let n := Z.of_N (N_of_ascii ch) in (128 <=? n)%Z && (n <? 192)%Z.


(** The first [n] characters of a string, and what follows them. *)
Fixpoint split_chars (n : nat) (s : list ascii) : list ascii * list ascii :=
  match s with
  | [] => ([], [])
  | ch :: rest =>
      if continues ch
      then let (a, b) := split_chars n rest in (ch :: a, b)
      else match n with
           | O => ([], s)
           | S n' => let (a, b) := split_chars n' rest in (ch :: a, b)
           end
  end.

(** Assignment to a VARCHAR(n) column: a string of at most [n]
    characters is stored as it is; a longer one is cut to [n]
    characters when all that is cut off are spaces, and refused
    otherwise. *)
Definition varchar (n : nat) (s : string) : option string :=
  match split_chars n (list_ascii_of_string s) with
  | (_, []) => Some s
  | (a, b) =>
      if forallb (Ascii.eqb " ") b then Some (string_of_list_ascii a) else None
  end.

(** A text parameter: the store takes no text with a NUL character. *)
Definition binds_text (p : option string) : bool :=
  match p with
  | Some s => negb (existsb (Ascii.eqb "000") (list_ascii_of_string s))
  | None => true
  end.

(** [completedbyuserid || null] *)
Definition or_null (x : option Z) : option Z :=
  if missing x then None else x.

(** UPDATE milestones SET status = $2, completeddate = NOW() or NULL,
    completedbyuserid = $3, updatedat = NOW() WHERE milestoneid = $1 *)
Definition set_milestone_status (id : Z) (st : string) (done : option Z)
    (by_user : option Z) (now : Z) (m : Milestone) : Milestone :=
  if (id =? milestoneid m)%Z
  then {| milestoneid := milestoneid m;
          milestone_orderid := milestone_orderid m;
          milestone_userid := milestone_userid m;
          milestonetype := milestonetype m;
          status := st;
          title := title m; description := description m;
          duedate := duedate m;
          completeddate := done;
          completedbyuserid := by_user;
          milestone_priority := milestone_priority m;
          isvisible := isvisible m;
          milestone_createdat := milestone_createdat m;
          milestone_updatedat := now |}
  else m.

Definition milestone_matches (id : Z) (t : Tables) : bool :=
  existsb (fun m => (id =? milestoneid m)%Z) (milestones t).

(** The handler, on what reaches it: [status] is the text that is bound
    for the status of the cleaned body, or nothing where that is null
    or absent, and [completedbyuserid] is an integer or nothing.  The
    handler compares the status with 'completed' to choose the
    statement; the store binds the three parameters in their order
    and refuses an id outside the INT range and a text with a NUL
    character there, refuses a status that does not fit the VARCHAR(50)
    column, and refuses to write NULL into the status of a row. *)
Definition put_milestone (milestoneId : Z) (status : option string)
    (completedbyuserid : option Z) (c : Ctx) (db : Database)
  : Database * Response :=
  let done :=
    match status with
    | Some st => if String.eqb st "completed" then Some (now c) else None
    | None => None
    end in
  if faulty c 0
  then (db, mkResponse 500 (error (Thrown ConnectionFailure)))
  else if negb (int4 milestoneId)
  then (db, mkResponse 500 (error (Thrown NumericValueOutOfRange)))
  else if negb (binds_text status)
  then (db, mkResponse 500 (error (Thrown CharacterNotInRepertoire)))
  else if negb (binds (or_null completedbyuserid))
  then (db, mkResponse 500 (error (Thrown NumericValueOutOfRange)))
  else
    match status with
    | Some st =>
        match varchar 50 st with
        | None =>
            (db, mkResponse 500 (error (Message
               "value too long for type character varying(50)")))
        | Some stored =>
            let t := tables db in
            (mkDatabase
               (with_milestones t
                  (map (set_milestone_status milestoneId stored done
                          (or_null completedbyuserid) (now c)) (milestones t)))
               (sequences db),
             mkResponse 200 (success "Milestone updated successfully" None))
        end
    | None =>
        if milestone_matches milestoneId (tables db)
        then (db, mkResponse 500 (error (Thrown (NotNullViolation "status"))))
        else (db, mkResponse 200 (success "Milestone updated successfully" None))
    end.

(** *** The cleanup of the request body, on the field [status]

    [cleanPostgreSQLData] runs before every route and lists [status]
    among its numeric fields: the strings '', 'undefined' and 'null'
    become null, and a string that JavaScript reads as a number (and
    that is not blank) is replaced by that number. *)

(** The characters that a string read as a number can have: digits,
    signs, the point, the letters of an exponent, of a radix prefix, of
    a hexadecimal numeral and of [Infinity], white space, and any byte
    of a character outside ASCII (it may be white space). *)
Definition numeric_char (ch : ascii) : bool :=
  existsb (Ascii.eqb ch)
    (list_ascii_of_string "0123456789+-.eExXoObBabcdefABCDEFInfinity")
  || Ascii.is_space ch
  || (128 <=? Z.of_N (N_of_ascii ch))%Z.

(** [isNaN(s)] for certain: some character of [s] is in no number. *)
Definition not_a_number (s : string) : bool :=
  existsb (fun ch => negb (numeric_char ch)) (list_ascii_of_string s).

(** [s.trim() === ''] for certain: nothing but ASCII white space. *)
Definition blank (s : string) : bool :=
  forallb Ascii.is_space (list_ascii_of_string s).

Inductive Cleaned : Type :=
  (** the field is null or absent after the cleanup *)
  | to_null
  (** the string stays as it is *)
  | unchanged (s : string)
  (** the string may be read as a number; the number that replaces it,
      and the text that is bound for it, are not modelled *)
  | numeric_looking.

Definition clean_status (status : option string) : Cleaned :=
  match status with
  | None => to_null
  | Some s =>
      if existsb (String.eqb s) [""; "undefined"; "null"] then to_null
      else if not_a_number s || blank s then unchanged s
      else numeric_looking
  end.

(** PUT /api/milestones/:milestoneId as it is sent: the cleanup, then
    the handler.  The result is defined where the cleanup is. *)
Definition put_milestone_request (milestoneId : Z) (status : option string)
    (completedbyuserid : option Z) (c : Ctx) (db : Database)
  : option (Database * Response) :=
  match clean_status status with
  | to_null => Some (put_milestone milestoneId None completedbyuserid c db)
  | unchanged s => Some (put_milestone milestoneId (Some s) completedbyuserid c db)
  | numeric_looking => None
  end.

(** *** The modelled write routes together *)

(** A milestone override is listed with what its handler receives:
    whatever the cleanup makes of the status that was sent, the handler
    binds some text or null for it. *)
Inductive Request : Type :=
  | Guarded (k : Call)
  | StockOverride (invoiceId : Z) (status : Js.Value) (c : Ctx)
  | MilestoneOverride (milestoneId : Z) (status : option string)
      (completedbyuserid : option Z) (c : Ctx).

Definition serve_request (db : Database) (r : Request) : Database :=
  match r with
  | Guarded k => serve db k
  | StockOverride i st c => fst (put_expected_stock_status i st c db)
  | MilestoneOverride i st u c => fst (put_milestone i st u c db)
  end.

Definition serve_requests (rs : list Request) (db : Database) : Database :=
  fold_left serve_request rs db.

(** A request other than a milestone status override. *)
Definition keeps_milestone_status (r : Request) : bool :=
  match r with
  | MilestoneOverride _ _ _ _ => false
  | _ => true
  end.

(** Properties of the stored rows that the routes are to keep. *)

Definition statuses_valid (t : Tables) : Prop :=
  forall i, In i (poinvoice t) -> In (expectedstockstatus i) validStatuses.

(** A row carries a completion date exactly when it is completed. *)
Definition dated_iff_completed (t : Tables) : Prop :=
  forall m, In m (milestones t) ->
    (status m = "completed" <-> completeddate m <> None).

(** Milestone keys are distinct and not above the sequence. *)
Definition keys_fresh (db : Database) : Prop :=
  List.NoDup (map milestoneid (milestones (tables db)))
  /\ forall m, In m (milestones (tables db)) ->
       milestoneid m <= milestones_milestoneid_seq (sequences db).

End Overrides.

(* ===================================================================== *)
(** ** POST /api/verify-vpl                                               *)
(* ===================================================================== *)

Module VerifyEndpoint.
Import Json Attestation.

(** ToBoolean on a value of the request body. *)
Definition truthy (v : JSON) : bool :=
  match v with
  | JUndefined | JNull => false
  | JBool b => b
  | JNumber n => negb (n =? 0)%Z
  | JString s => negb (String.eqb s "")
  | JArray _ | JObject _ => true
  end.

Inductive VerifyReply : Type :=
  (** success: true, isValid: true, message, vplData *)
  | authentic (message : string) (vplData : JSON)
  (** success: false, error *)
  | invalid_request (error : string)
  (** success: false, isValid: false, error, details *)
  | tampered (error : string) (details : string).

Record VerifyResponse : Type := mkVerifyResponse {
  verify_code : Z;
  verify_json : VerifyReply }.

(** [verification.error || 'Security hash mismatch'] *)
Definition details_of (v : Verification) : string :=
  match v with
  | VerifyFailed e => if String.eqb e "" then "Security hash mismatch" else e
  | Verified _ _ _ => "Security hash mismatch"
  end.

(** The handler, on the parsed body.  [!vplData || !vplData.securityHash]
    lets only an object with a truthy [securityHash] through: a string,
    a number, a boolean or an array has no such property. *)
Definition post_verify_vpl (env : Env) (body : Obj) : VerifyResponse :=
  let vplData := get body "vplData" in
  let missing_hash :=
    mkVerifyResponse 400 (invalid_request "Invalid VPL data - missing security hash") in
  match vplData with
  | JObject o =>
      if negb (truthy (get o "securityHash")) then missing_hash
      else
        let verification := verifySecurityHash env o in
        if isValid verification
        then mkVerifyResponse 200
               (authentic "VPL is authentic and has not been tampered with" vplData)
        else mkVerifyResponse 400
               (tampered "VPL has been tampered with or is invalid"
                  (details_of verification))
  | _ => missing_hash
  end.

(** The characters of a hexadecimal digest. *)
Definition is_hex_digit (ch : ascii) : bool :=
  existsb (Ascii.eqb ch) (list_ascii_of_string "0123456789abcdef").

End VerifyEndpoint.

(* ===================================================================== *)
(** ** UN/LOCODE search                                                   *)
(* ===================================================================== *)

Module Unlocodes.

(** A record of the subdivisions file: three columns, each a string or
    absent. *)
Record Entry : Type := mkEntry {
  column1 : option string;
  column2 : option string;
  column3 : option string }.

(** [s.startsWith(q)] *)
Definition startsWith (s q : string) : bool := String.prefix q s.

(** [s.includes(q)] *)
Fixpoint includes (s q : string) : bool :=
  match s with
  | EmptyString => String.prefix q s
  | String _ rest => String.prefix q s || includes rest q
  end.

(** Insertion of [x], which stood before every element of the sorted
    [l], so that it stays before the elements it does not have to
    follow. *)
Fixpoint insert_sorted {A : Type} (compareFn : A -> A -> Z) (x : A) (l : list A)
  : list A :=
  match l with
  | [] => [x]
  | y :: rest =>
      if (compareFn y x <? 0)%Z then y :: insert_sorted compareFn x rest
      else x :: y :: rest
  end.

(** [l.sort(compareFn)]: the sort of the engine is stable, so for a
    comparator that orders by a key its result is the one stable
    arrangement. *)
Definition Array_sort_by {A : Type} (compareFn : A -> A -> Z) (l : list A) : list A :=
  fold_right (insert_sorted compareFn) [] l.

(** The lower-casing of ASCII letters. *)
Definition ascii_lower (s : string) : string :=
  string_of_list_ascii
    (map (fun ch => let n := N_of_ascii ch in
                    if ((65 <=? n) && (n <=? 90))%N then ascii_of_N (n + 32) else ch)
       (list_ascii_of_string s)).

Section Search.

(** [String.prototype.toLowerCase], whose case mapping of non-ASCII
    letters is left open: what follows holds for every mapping. *)
Variable toLowerCase : string -> string.

(** [(entry.column || '').toLowerCase()] *)
Definition lowered (column : option string) : string :=
  toLowerCase (match column with Some s => s | None => "" end).

Definition rankEntry (entry : Entry) (lowerQuery : string) : Z :=
  let c1 := lowered (column1 entry) in
  let c2 := lowered (column2 entry) in
  let c3 := lowered (column3 entry) in
  let score := 0 in
  let score :=
    if startsWith c1 lowerQuery then score + 5
    else if includes c1 lowerQuery then score + 1 else score in
  let score :=
    if startsWith c2 lowerQuery then score + 4
    else if includes c2 lowerQuery then score + 1 else score in
  let score :=
    if startsWith c3 lowerQuery then score + 3
    else if includes c3 lowerQuery then score + 1 else score in
  score.

(** The filter of the search. *)
Definition matches (lowerQuery : string) (entry : Entry) : bool :=
  let c1 := lowered (column1 entry) in
  let c2 := lowered (column2 entry) in
  let c3 := lowered (column3 entry) in
  includes c1 lowerQuery || includes c2 lowerQuery || includes c3 lowerQuery.

(** GET /api/search-unlocodes?q=..: [None] is the answer 400 to a
    missing or empty [q]. *)
Definition search_unlocodes (subdivisionsData : list Entry) (q : option string)
  : option (list Entry) :=
  match q with
  | None => None
  | Some query =>
      if String.eqb query "" then None
      else
        let lowerQuery := toLowerCase query in
        let results := List.filter (matches lowerQuery) subdivisionsData in
        Some (Array_sort_by
                (fun a b => rankEntry b lowerQuery - rankEntry a lowerQuery)
                results)
  end.

End Search.

End Unlocodes.

(* ===================================================================== *)
(** ** Booking status on the read path                                    *)
(* ===================================================================== *)

Module Bookings.
Import Js StatusCodec.

(** The [status] column of a booking row as the driver returns it: an
    integer, or null. *)
Definition column_value (status : option Z) : Value :=
  match status with
  | Some n => VNumber n
  | None => VNull
  end.

(** [Status: mapStatusToString(booking.status)] of GET /api/po-bookings. *)
Definition booking_Status (status : option Z) : Value :=
  mapStatusToString (column_value status).

End Bookings.

(* ===================================================================== *)
(** ** Authentication middleware                                          *)
(* ===================================================================== *)

Module Auth.

(** A row of the user query: the user joined with one company role and
    one permission, where a missing company or permission is null. *)
Record Row : Type := mkRow {
  row_userid : Z;
  companyid : option Z;
  companyname : option string;
  companytype : option string;
  Role : option string;
  permissionname : option string }.

Record Company : Type := mkCompany {
  companyId : Z;
  companyName : option string;
  companyType : option string;
  role : option string }.

(** [row.companyid &&]: a company id that is neither null nor 0. *)
Definition company_key (r : Row) : option Z :=
  match companyid r with
  | Some 0 => None
  | other => other
  end.

(** [row.permissionname &&]: a name that is neither null nor empty. *)
Definition permission_key (r : Row) : option string :=
  match permissionname r with
  | Some "" => None
  | other => other
  end.

(** [companiesMap.has(id)] *)
Definition has_company (cs : list Company) (id : Z) : bool :=
  existsb (fun c => (companyId c =? id)%Z) cs.

(** [permissions.includes(name)] *)
Definition includes (ps : list string) (name : string) : bool :=
  existsb (String.eqb name) ps.

(** The body of [result.rows.forEach(row => ...)]: the companies map in
    insertion order, and the permissions array. *)
Definition group_row (acc : list Company * list string) (r : Row)
  : list Company * list string :=
  let companies :=
    match company_key r with
    | Some id =>
        if negb (has_company (fst acc) id)
        then fst acc ++ [mkCompany id (companyname r) (companytype r) (Role r)]
        else fst acc
    | None => fst acc
    end in
  let permissions :=
    match permission_key r with
    | Some name =>
        if negb (includes (snd acc) name) then snd acc ++ [name] else snd acc
    | None => snd acc
    end in
  (companies, permissions).

(** [user.companies] and [user.permissions] built from the rows. *)
Definition group_rows (rows : list Row) : list Company * list string :=
  fold_left group_row rows ([], []).

Inductive Verdict : Type :=
  | next
  | deny (code : Z) (error : string).

(** [requirePermission(permission)] on a request whose user, if it is
    authenticated, has the given permissions. *)
Definition requirePermission (permission : string) (user : option (list string))
  : Verdict :=
  match user with
  | None => deny 401 "Authentication required"
  | Some permissions =>
      if negb (includes permissions permission)
      then deny 403 "Insufficient permissions"
      else next
  end.

(** [authHeader.split(' ')]: the pieces between single spaces. *)
Fixpoint split_spaces (s : string) (piece : string) : list string :=
  match s with
  | EmptyString => [piece]
  | String ch rest =>
      if Ascii.eqb ch " "%char then piece :: split_spaces rest ""
      else split_spaces rest (piece +:+ String ch EmptyString)
  end.

(** [authHeader && authHeader.split(' ')[1]], then [!token]: the token
    that the middleware goes on with, if any. *)
Definition bearer_token (authHeader : option string) : option string :=
  match authHeader with
  | None => None
  | Some h =>
      if String.eqb h "" then None
      else match split_spaces h "" with
           | _ :: t :: _ => if String.eqb t "" then None else Some t
           | _ => None
           end
  end.

End Auth.

(* ===================================================================== *)
(** ** The chain from end to end                                          *)
(* ===================================================================== *)

Module Chain.
Import Milestones MilestoneSpec.

(** The five actions requested in chain order for one order by one
    user, each at its own time, with no statement failing. *)
Definition walk (o u : Z) (times : Action -> Z) : list Call :=
  map (fun a => mkCall a (mkBody (Some o) (Some u)) (mkCtx (times a) (fun _ => false)))
      chain.

(** The communications of the audit trail that were written for
    milestones. *)
Definition milestone_updates (l : list Communication) : Prop :=
  forall m, In m l -> messagetype m = "milestone_update".

End Chain.

(* ===================================================================== *)
(** * Properties                                                          *)
(* ===================================================================== *)

(** ** Status codec *)

Module StatusCodecProofs.
Import Js StatusCodec.

Lemma string_of_Z_parses (n : Z) :
  NilZero.int_of_string (string_of_Z n) = Some (Z.to_int n).
Proof.
  unfold string_of_Z. apply NilZero.isi.
  - destruct n; simpl; try discriminate.
    intros [= H]. revert H. apply Unsigned.to_uint_nonnil.
  - destruct n; simpl; try discriminate.
    intros [= H]. revert H. apply Unsigned.to_uint_nonnil.
Qed.

(** The decimal rendering of an integer determines the integer. *)
Lemma string_of_Z_eq (n m : Z) : string_of_Z n = string_of_Z m -> n = m.
Proof.
  intros H. apply DecimalZ.to_int_inj.
  pose proof (string_of_Z_parses n) as Hn.
  rewrite H, string_of_Z_parses in Hn. congruence.
Qed.

(** A string that is not a decimal numeral renders no integer. *)
Lemma string_of_Z_not (n : Z) (s : string) :
  NilZero.int_of_string s = None -> String.eqb s (string_of_Z n) = false.
Proof.
  intros Hs. apply String.eqb_neq. intros ->.
  rewrite string_of_Z_parses in Hs. discriminate.
Qed.

Lemma key_of_code (n m : Z) (s : string) :
  s = string_of_Z m -> n <> m -> String.eqb s (string_of_Z n) = false.
Proof.
  intros -> Hne. apply String.eqb_neq. intros H.
  apply string_of_Z_eq in H. congruence.
Qed.

(** [toCode(toLabel(c)) == c] for the five codes. *)
Lemma code_label_code (c : Z) :
  1 <= c <= 5 -> mapStatusToInt (mapStatusToString (VNumber c)) = VNumber c.
Proof.
  intros Hc.
  assert (c = 1 \/ c = 2 \/ c = 3 \/ c = 4 \/ c = 5) as Hcases by lia.
  destruct Hcases as [-> | [-> | [-> | [-> | ->]]]]; reflexivity.
Qed.

(** [toLabel(toCode(l)) == l] for the five labels. *)
Lemma label_code_label (l : string) :
  In l labels -> mapStatusToString (mapStatusToInt (VString l)) = VString l.
Proof.
  unfold labels. simpl.
  intros [<- | [<- | [<- | [<- | [<- | []]]]]]; reflexivity.
Qed.

(** A numeric input to [toCode] passes through. *)
Lemma code_passthrough (n : Z) : mapStatusToInt (VNumber n) = VNumber n.
Proof. reflexivity. Qed.

Lemma bogus_label : mapStatusToInt (VString "bogus") = VNumber 1.
Proof. reflexivity. Qed.

Lemma code_999 : mapStatusToString (VNumber 999) = VString "Pending".
Proof. reflexivity. Qed.

(** Every integer outside 1..5 is rendered as ["Pending"]. *)
Lemma unknown_code_pending (n : Z) :
  ~ (1 <= n <= 5) -> mapStatusToString (VNumber n) = VString "Pending".
Proof.
  intros Hn. unfold mapStatusToString, get, to_property_key.
  cbn [own_property].
  rewrite (key_of_code n 1 "1"), (key_of_code n 2 "2"), (key_of_code n 3 "3"),
    (key_of_code n 4 "4"), (key_of_code n 5 "5") by first [reflexivity | lia].
  unfold object_prototype_names. cbn [existsb].
  rewrite !(String.eqb_sym (string_of_Z n)).
  rewrite !string_of_Z_not by reflexivity.
  reflexivity.
Qed.

(** A label that is neither in the table nor a member of
    [Object.prototype] is encoded as [1]. *)
Lemma unknown_label_default (l : string) :
  ~ In l labels -> ~ In l object_prototype_names ->
  mapStatusToInt (VString l) = VNumber 1.
Proof.
  intros Hl Hp. unfold mapStatusToInt, get. simpl typeof. cbv iota.
  unfold to_property_key.
  assert (own_property
            [("Pending", VNumber 1); ("Confirmed", VNumber 2);
             ("In Transit", VNumber 3); ("Delivered", VNumber 4);
             ("Cancelled", VNumber 5)] l = None) as ->.
  { cbn [own_property]. unfold labels in Hl. cbn [In] in Hl.
    repeat match goal with
    | |- context [String.eqb ?a l] =>
        destruct (String.eqb_spec a l); [exfalso; apply Hl; tauto|]
    end. reflexivity. }
  assert (existsb (String.eqb l) object_prototype_names = false) as ->.
  { apply not_true_is_false. intros H. apply existsb_exists in H.
    destruct H as [x [Hx Heq]]. apply String.eqb_eq in Heq. subst x. tauto. }
  reflexivity.
Qed.

(** C10.  The codec is a bijection on its five entries, numbers pass
    through [mapStatusToInt] unchanged and ["bogus"] and [999] take the
    defaults, but the default for an unrecognized label is not
    universal: the label ["constructor"] is not one of the five, and
    [mapStatusToInt] returns the member that the lookup table inherits
    under that name instead of [1]. *)
Theorem inherited_label_not_defaulted :
  ~ In "constructor" labels
  /\ mapStatusToInt (VString "constructor") = VBuiltin "constructor"
  /\ mapStatusToInt (VString "constructor") <> VNumber 1.
Proof.
  split; [|split].
  - unfold labels. simpl. intros H.
    repeat (destruct H as [H|H]; [discriminate H|]). exact H.
  - reflexivity.
  - discriminate.
Qed.

End StatusCodecProofs.

(** ** Packing-list attestation *)

Module AttestationProofs.
Import Json Attestation.

(** The digest model agrees with the published test vectors: SHA-256 of
    "abc" (FIPS 180), and HMAC-SHA256 test case 2 of RFC 4231. *)
Example sha256_abc :
  Crypto.hex (Crypto.sha256 (Crypto.bytes_of_string "abc"))
  = "ba7816bf8f01cfea414140de5dae2223b00361a396177a9cb410ff61f20015ad".
Proof. vm_compute. reflexivity. Qed.

Example hmac_sha256_rfc4231_2 :
  Crypto.createHmac_sha256_hex "Jefe" "what do ya want for nothing?"
  = "5bdcc146bf60754e6a042426089575c75a003f089d2739839dec58b964ec3843".
Proof. vm_compute. reflexivity. Qed.

Lemma delete_property_idem (k : string) (o : Obj) :
  delete_property k (delete_property k o) = delete_property k o.
Proof.
  unfold delete_property. induction o as [|[k0 w] rest IH]; simpl; [reflexivity|].
  destruct (String.eqb k0 k) eqn:E; simpl; [exact IH|].
  rewrite E. simpl. now rewrite IH.
Qed.

(** Attaching a field and deleting it again leaves what deleting alone
    leaves: the seal never enters its own input. *)
Lemma delete_set_property (k : string) (v : JSON) (o : Obj) :
  delete_property k (set_property k v o) = delete_property k o.
Proof.
  induction o as [|[k0 w] rest IH]; simpl.
  - now rewrite String.eqb_refl.
  - destruct (String.eqb k0 k) eqn:E; simpl; rewrite E; simpl.
    + apply delete_property_idem.
    + now rewrite IH.
Qed.

Lemma get_set_property (k : string) (v : JSON) (o : Obj) :
  get (set_property k v o) k = v.
Proof.
  unfold get. induction o as [|[k0 w] rest IH]; simpl.
  - now rewrite String.eqb_refl.
  - destruct (String.eqb k0 k) eqn:E; simpl; rewrite E; [reflexivity | exact IH].
Qed.

Lemma dataString_attach (p : Obj) (h : string) :
  dataString (attach p h) = dataString p.
Proof. unfold dataString, attach. now rewrite delete_set_property. Qed.

Lemma generate_attach (env : Env) (p : Obj) (h : string) :
  generateSecurityHash env (attach p h) = generateSecurityHash env p.
Proof. unfold generateSecurityHash. now rewrite dataString_attach. Qed.

(** Verification of a payload that carries the seal [h]. *)
Lemma verify_attach (env : Env) (p : Obj) (h : string) :
  verifySecurityHash env (attach p h)
  = Verified (String.eqb h (generateSecurityHash env p))
             (JString h) (generateSecurityHash env p).
Proof.
  unfold verifySecurityHash. rewrite generate_attach.
  assert (get (attach p h) "securityHash" = JString h) as ->
    by apply get_set_property.
  reflexivity.
Qed.

(** Payloads with the same canonical string carry the same seal. *)
Lemma same_dataString_same_seal (env : Env) (p q : Obj) :
  dataString p = dataString q ->
  generateSecurityHash env p = generateSecurityHash env q.
Proof. unfold generateSecurityHash. now intros ->. Qed.

(** The seal of the scenario payload under the built-in key. *)
Example scenario_seal :
  generateSecurityHash ∅
    [ ("refNumber", JString "R1");
      ("lineItems", JArray [JObject [("qty", JNumber 10)]]) ]
  = "df4924a22e77faac97135a9400d01464f4140d0f8eadff576c8bf41dba43dc36".
Proof. vm_compute. reflexivity. Qed.

(** C8.  [verify(generate(payload))] is valid: for every payload and
    every configuration, the payload with the generated seal attached
    (replacing a seal it may already carry) verifies, and the verdict
    reports the carried and the recomputed seal, which coincide. *)
Theorem verify_generate (env : Env) (payload : Obj) :
  let seal := generateSecurityHash env payload in
  verifySecurityHash env (attach payload seal) = Verified true (JString seal) seal
  /\ isValid (verifySecurityHash env (attach payload seal)) = true.
Proof.
  cbv zeta. rewrite verify_attach, String.eqb_refl. split; reflexivity.
Qed.

(** C6.  Scenario B on the code: the payload
    [{refNumber: "R1", lineItems: [{qty: 10}]}] is sealed, the quantity
    is changed to 11, and the tampered payload with the original seal
    still verifies; both payloads have the canonical string
    [{"lineItems":[{}],"refNumber":"R1"}], because the sorted top-level
    keys act as the list of allowed keys at every depth. *)
Theorem tampered_quantity_still_valid (env : Env) :
  let payload :=
    [ ("refNumber", JString "R1");
      ("lineItems", JArray [JObject [("qty", JNumber 10)]]) ] in
  let tampered :=
    [ ("refNumber", JString "R1");
      ("lineItems", JArray [JObject [("qty", JNumber 11)]]) ] in
  let seal1 := generateSecurityHash env payload in
  dataString tampered = dataString payload
  /\ isValid (verifySecurityHash env (attach tampered seal1)) = true.
Proof.
  cbv zeta.
  assert (dataString
            [ ("refNumber", JString "R1");
              ("lineItems", JArray [JObject [("qty", JNumber 11)]]) ]
          = dataString
            [ ("refNumber", JString "R1");
              ("lineItems", JArray [JObject [("qty", JNumber 10)]]) ]) as Hsame
    by (vm_compute; reflexivity).
  split; [exact Hsame|].
  rewrite verify_attach.
  rewrite (same_dataString_same_seal env _ _ Hsame).
  simpl. apply String.eqb_refl.
Qed.

(** C7.  Distinct values of a nested field do not give distinct
    canonical forms: two payloads that differ in [exporter.company]
    have the same canonical string, in which the nested object is
    empty, and hence the same seal. *)
Theorem nested_values_same_canonical_form (env : Env) :
  let p := [ ("exporter", JObject [("company", JString "Acme")]) ] in
  let q := [ ("exporter", JObject [("company", JString "Evil")]) ] in
  p <> q
  /\ dataString p = dataString q
  /\ generateSecurityHash env p = generateSecurityHash env q.
Proof.
  cbv zeta.
  assert (dataString [ ("exporter", JObject [("company", JString "Acme")]) ]
          = dataString [ ("exporter", JObject [("company", JString "Evil")]) ])
    as Hsame by (vm_compute; reflexivity).
  split; [discriminate|]. split; [exact Hsame|].
  apply same_dataString_same_seal, Hsame.
Qed.

(** A field at the top level does enter the canonical form. *)
Example top_level_value_canonical :
  dataString [ ("refNumber", JString "R1") ]
  <> dataString [ ("refNumber", JString "R2") ].
Proof. vm_compute. discriminate. Qed.

(** A configured, non-empty secret is the key. *)
Lemma configured_secret_is_key (env : Env) (s : string) (payload : Obj) :
  env !! "VPL_SECRET_KEY" = Some s -> s <> "" ->
  generateSecurityHash env payload
  = Crypto.createHmac_sha256_hex s (dataString payload).
Proof.
  intros H Hs. unfold generateSecurityHash, VPL_SECRET_KEY. rewrite H.
  destruct (String.eqb_spec s ""); [contradiction | reflexivity].
Qed.

(** An unset or empty variable selects the literal of the source. *)
Lemma unset_secret_is_literal (env : Env) (payload : Obj) :
  env !! "VPL_SECRET_KEY" = None \/ env !! "VPL_SECRET_KEY" = Some "" ->
  generateSecurityHash env payload
  = Crypto.createHmac_sha256_hex
      "your-super-secret-vpl-key-change-this-in-production" (dataString payload).
Proof.
  intros H. unfold generateSecurityHash, VPL_SECRET_KEY.
  destruct H as [-> | ->]; reflexivity.
Qed.

(** A payload that carries the HMAC of its canonical string under the
    key in use is valid. *)
Lemma hmac_under_key_verifies (env : Env) (key : string) (payload : Obj) :
  generateSecurityHash env payload
  = Crypto.createHmac_sha256_hex key (dataString payload) ->
  isValid (verifySecurityHash env
             (attach payload (Crypto.createHmac_sha256_hex key (dataString payload))))
  = true.
Proof.
  intros H. rewrite verify_attach, H. cbn [isValid]. apply String.eqb_refl.
Qed.

(** C9, as the code has it.  Under every configuration seals are
    computed, and the key is chosen as follows.  When the secret is
    missing from the configuration, or empty, the seal of every payload
    is the HMAC-SHA256 of its canonical string under the literal of the
    source, and a seal that anyone computes with that literal is
    accepted by the verification.  When a non-empty secret is
    configured, the seal is the HMAC under that secret instead, and it
    is the seal computed with that secret which is accepted. *)
Theorem missing_secret_uses_builtin_key (env : Env) (payload : Obj) :
  (env !! "VPL_SECRET_KEY" = None \/ env !! "VPL_SECRET_KEY" = Some "" ->
   generateSecurityHash env payload
   = Crypto.createHmac_sha256_hex
       "your-super-secret-vpl-key-change-this-in-production" (dataString payload)
   /\ isValid (verifySecurityHash env
        (attach payload
           (Crypto.createHmac_sha256_hex
              "your-super-secret-vpl-key-change-this-in-production"
              (dataString payload)))) = true)
  /\ (forall s, env !! "VPL_SECRET_KEY" = Some s -> s <> "" ->
      generateSecurityHash env payload
      = Crypto.createHmac_sha256_hex s (dataString payload)
      /\ isValid (verifySecurityHash env
           (attach payload (Crypto.createHmac_sha256_hex s (dataString payload))))
         = true).
Proof.
  split.
  - intros H. pose proof (unset_secret_is_literal env payload H) as Hkey.
    split; [exact Hkey | now apply hmac_under_key_verifies].
  - intros s H Hs. pose proof (configured_secret_is_key env s payload H Hs) as Hkey.
    split; [exact Hkey | now apply hmac_under_key_verifies].
Qed.

Lemma missing_secret_uses_builtin_key_witness :
  (∅ : Env) !! "VPL_SECRET_KEY" = None
  /\ generateSecurityHash ∅ []
     = Crypto.createHmac_sha256_hex
         "your-super-secret-vpl-key-change-this-in-production" "{}"
  /\ ({["VPL_SECRET_KEY" := "k1"]} : Env) !! "VPL_SECRET_KEY" = Some "k1"
  /\ generateSecurityHash {["VPL_SECRET_KEY" := "k1"]} []
     = Crypto.createHmac_sha256_hex "k1" "{}".
Proof.
  split; [reflexivity|].
  split; [exact (proj1 (proj1 (missing_secret_uses_builtin_key ∅ [])
                           (or_introl eq_refl)))|].
  split; [reflexivity|].
  refine (proj1 (proj2 (missing_secret_uses_builtin_key
                          {["VPL_SECRET_KEY" := "k1"]} []) "k1" eq_refl _)).
  discriminate.
Defined.

(** C9 as stated fails.  With an empty environment nothing stops the
    start: the key is the literal of the source, and the empty payload
    is sealed with it (the value is the HMAC-SHA256 of [{}] under that
    literal).  So it is not the case that a configuration without the
    secret never yields a seal under the built-in key. *)
Lemma unset_secret_still_seals :
  (∅ : Env) !! "VPL_SECRET_KEY" = None
  /\ VPL_SECRET_KEY ∅ = "your-super-secret-vpl-key-change-this-in-production"
  /\ generateSecurityHash ∅ []
     = "786329e53ea96f68066957c2842b06eb2d306f404d98e089d8fe8e2456820f0b"
  /\ ~ (forall (env : Env) (payload : Obj),
          env !! "VPL_SECRET_KEY" = None ->
          generateSecurityHash env payload
          <> Crypto.createHmac_sha256_hex
               "your-super-secret-vpl-key-change-this-in-production"
               (dataString payload)).
Proof.
  split; [reflexivity|]. split; [reflexivity|].
  split; [vm_compute; reflexivity|].
  intros H. apply (H ∅ []); reflexivity.
Qed.

(** *** Key order *)

Lemma leb_trans (s1 s2 s3 : string) :
  String.leb s1 s2 = true -> String.leb s2 s3 = true -> String.leb s1 s3 = true.
Proof.
  unfold String.leb. revert s2 s3.
  induction s1 as [|a s1 IH]; intros [|b s2] [|c s3]; cbn [String.compare];
    try reflexivity; try discriminate.
  unfold Ascii.compare.
  destruct (N.compare_spec (N_of_ascii a) (N_of_ascii b)) as [Hab|Hab|Hab];
  destruct (N.compare_spec (N_of_ascii b) (N_of_ascii c)) as [Hbc|Hbc|Hbc];
  destruct (N.compare_spec (N_of_ascii a) (N_of_ascii c)) as [Hac|Hac|Hac];
    try reflexivity; try discriminate; try lia.
  apply IH.
Qed.

Lemma lex_leb_total (a b : list Z) : lex_leb a b = true \/ lex_leb b a = true.
Proof.
  revert b. induction a as [|x a IH]; intros [|y b]; cbn [lex_leb]; auto.
  destruct (Z.ltb_spec x y), (Z.ltb_spec y x), (Z.eqb_spec x y), (Z.eqb_spec y x);
    auto; lia.
Qed.

Lemma lex_leb_antisym (a b : list Z) :
  lex_leb a b = true -> lex_leb b a = true -> a = b.
Proof.
  revert b. induction a as [|x a IH]; intros [|y b]; cbn [lex_leb];
    try reflexivity; try discriminate.
  destruct (Z.ltb_spec x y), (Z.ltb_spec y x), (Z.eqb_spec x y), (Z.eqb_spec y x);
    try discriminate; try lia.
  intros H1 H2. subst y. f_equal. now apply IH.
Qed.

Lemma lex_leb_trans (a b c : list Z) :
  lex_leb a b = true -> lex_leb b c = true -> lex_leb a c = true.
Proof.
  revert b c. induction a as [|x a IH]; intros [|y b] [|z c]; cbn [lex_leb];
    try reflexivity; try discriminate.
  destruct (Z.ltb_spec x y), (Z.ltb_spec y z), (Z.ltb_spec x z),
    (Z.eqb_spec x y), (Z.eqb_spec y z), (Z.eqb_spec x z);
    try reflexivity; try discriminate; try lia.
  apply IH.
Qed.

#[local] Instance code_unit_le_total : Total code_unit_le.
Proof.
  intros s1 s2. unfold code_unit_le, code_unit_leb. cbv zeta.
  destruct (lex_leb_total (code_units (list_ascii_of_string s1))
              (code_units (list_ascii_of_string s2))) as [H|H]; rewrite H.
  - destruct (lex_leb (code_units (list_ascii_of_string s2))
                (code_units (list_ascii_of_string s1))); [|now left].
    apply String.leb_total.
  - destruct (lex_leb (code_units (list_ascii_of_string s1))
                (code_units (list_ascii_of_string s2))); [|now right].
    apply String.leb_total.
Qed.

#[local] Instance code_unit_le_trans : Transitive code_unit_le.
Proof.
  intros s1 s2 s3. unfold code_unit_le, code_unit_leb. cbv zeta.
  set (u1 := code_units (list_ascii_of_string s1)).
  set (u2 := code_units (list_ascii_of_string s2)).
  set (u3 := code_units (list_ascii_of_string s3)).
  destruct (lex_leb u1 u2) eqn:H12; [|discriminate].
  destruct (lex_leb u2 u3) eqn:H23; [|intros _; discriminate].
  rewrite (lex_leb_trans u1 u2 u3 H12 H23).
  destruct (lex_leb u3 u1) eqn:H31; [|reflexivity].
  rewrite (lex_leb_trans u2 u3 u1 H23 H31), (lex_leb_trans u3 u1 u2 H31 H12).
  apply leb_trans.
Qed.

#[local] Instance code_unit_le_antisym : AntiSymm eq code_unit_le.
Proof.
  intros s1 s2. unfold code_unit_le, code_unit_leb. cbv zeta.
  destruct (lex_leb (code_units (list_ascii_of_string s1))
              (code_units (list_ascii_of_string s2))); [|discriminate].
  destruct (lex_leb (code_units (list_ascii_of_string s2))
              (code_units (list_ascii_of_string s1))); [|intros _; discriminate].
  apply String.leb_antisym.
Qed.

(** The tilde of the full-width forms (U+FF5E) and a face above the
    basic plane (U+1F600): the face is a surrogate pair and sorts
    first, although its bytes are the larger. *)
Example sort_by_code_unit :
  let tilde := String "239" (String "189" (String "158" "")) in
  let face := String "240" (String "159" (String "152" (String "128" ""))) in
  code_units (list_ascii_of_string tilde) = [65374]
  /\ code_units (list_ascii_of_string face) = [55357; 56832]
  /\ Array_sort [tilde; face; "b"; "a"] = ["a"; "b"; face; tilde].
Proof. vm_compute. repeat split. Qed.

(** Sorting forgets the order in which the keys were listed. *)
Lemma Array_sort_perm (l l' : list string) :
  Permutation l l' -> Array_sort l = Array_sort l'.
Proof.
  intros Hp. unfold Array_sort.
  apply (StronglySorted_unique code_unit_le).
  - apply StronglySorted_merge_sort; apply _.
  - apply StronglySorted_merge_sort; apply _.
  - now rewrite !merge_sort_Permutation.
Qed.

Lemma lookup_serialized_notin (ms : list (string * option string)) (k : string) :
  ~ In k (map fst ms) -> lookup_serialized ms k = None.
Proof.
  induction ms as [|[k0 r] ms IH]; cbn; [reflexivity|].
  intros Hn. destruct (String.eqb_spec k0 k) as [->|_]; [tauto|].
  apply IH. tauto.
Qed.

Lemma lookup_serialized_perm (ms ms' : list (string * option string)) (k : string) :
  Permutation ms ms' -> List.NoDup (map fst ms) ->
  lookup_serialized ms k = lookup_serialized ms' k.
Proof.
  induction 1 as [|[k0 r] l l' Hp IH|[k1 r1] [k2 r2] l|l l' l'' Hp1 IH1 Hp2 IH2];
    intros Hnd; cbn [lookup_serialized map fst] in *.
  - reflexivity.
  - apply List.NoDup_cons_iff in Hnd. destruct Hnd as [_ Hnd].
    rewrite IH by exact Hnd. reflexivity.
  - destruct (String.eqb_spec k1 k) as [->|_];
      destruct (String.eqb_spec k2 k) as [->|_]; try reflexivity.
    exfalso. apply List.NoDup_cons_iff in Hnd. destruct Hnd as [Hnd _].
    apply Hnd. left. reflexivity.
  - rewrite IH1 by exact Hnd. apply IH2.
    eapply Permutation.Permutation_NoDup; [|exact Hnd]. now apply Permutation_map.
Qed.

Lemma members_ext (ms ms' : list (string * option string)) (K : list string) :
  (forall k, lookup_serialized ms k = lookup_serialized ms' k) ->
  omap (member ms) K = omap (member ms') K.
Proof.
  intros Hext.
  assert (forall k, member ms k = member ms' k) as Hm
    by (intros k; unfold member; now rewrite Hext).
  induction K as [|k K IH]; [reflexivity|].
  csimpl. now rewrite Hm, IH.
Qed.

(** The canonical form under a fixed property list does not depend on
    the order of the keys inside the value. *)
Lemma serialize_same_fields (K : list string) :
  forall v w, same_fields v w -> serialize K v = serialize K w.
Proof.
  fix IH 3. intros v w H.
  destruct H as [v | xs ys Hxs | ps qs qs' Hps Hperm Hnd].
  - reflexivity.
  - assert (map (fun x => default "null" (serialize K x)) xs
            = map (fun x => default "null" (serialize K x)) ys) as Hparts.
    { induction Hxs as [|x y xs ys Hxy Hxs IHxs]; [reflexivity|].
      cbn [map]. rewrite (IH x y Hxy), IHxs. reflexivity. }
    cbn [serialize]. now rewrite Hparts.
  - assert (map (fun kv => match kv with (k, x) => (k, serialize K x) end) ps
            = map (fun kv => match kv with (k, x) => (k, serialize K x) end) qs)
      as Hms.
    { clear Hperm Hnd.
      induction Hps as [|[k x] [k' y] ps qs [Hk Hxy] Hps IHps]; [reflexivity|].
      cbn [map fst snd] in *. rewrite (IH x y Hxy), IHps, Hk. reflexivity. }
    cbn [serialize].
    rewrite (members_ext _
      (map (fun kv => match kv with (k, x) => (k, serialize K x) end) qs') K);
      [reflexivity|].
    intros k. rewrite Hms.
    apply lookup_serialized_perm.
    + now apply Permutation_map.
    + rewrite <- Hms, map_map.
      erewrite map_ext; [exact Hnd|]. now intros [k0 x].
Qed.

Lemma delete_property_perm (k : string) (o o' : Obj) :
  Permutation o o' -> Permutation (delete_property k o) (delete_property k o').
Proof.
  unfold delete_property.
  induction 1 as [|[k0 x] l l' Hp IH|[k1 x1] [k2 x2] l|l l' l'' Hp1 IH1 Hp2 IH2];
    cbn [List.filter fst].
  - reflexivity.
  - destruct (negb (String.eqb k0 k)); [now constructor | exact IH].
  - destruct (negb (String.eqb k1 k)), (negb (String.eqb k2 k));
      try reflexivity. apply perm_swap.
  - now transitivity (List.filter (fun kv => negb (String.eqb (fst kv) k)) l').
Qed.

Lemma delete_property_keys (k : string) (o : Obj) :
  map fst (delete_property k o)
  = List.filter (fun k0 => negb (String.eqb k0 k)) (map fst o).
Proof.
  unfold delete_property. induction o as [|[k0 x] o IH]; [reflexivity|].
  cbn [List.filter map fst]. destruct (negb (String.eqb k0 k)); cbn [map fst];
    now rewrite IH.
Qed.

Lemma delete_property_same (k : string) (ps qs : Obj) :
  Forall2 (fun p q => fst p = fst q /\ same_fields (snd p) (snd q)) ps qs ->
  Forall2 (fun p q => fst p = fst q /\ same_fields (snd p) (snd q))
    (delete_property k ps) (delete_property k qs).
Proof.
  unfold delete_property.
  induction 1 as [|[k1 x] [k2 y] ps qs [Hk Hxy] Hps IH]; [constructor|].
  cbn [List.filter fst snd] in *. subst k2.
  destruct (negb (String.eqb k1 k)); [|exact IH].
  constructor; [split; [reflexivity | exact Hxy] | exact IH].
Qed.

Lemma same_fields_keys (ps qs : Obj) :
  Forall2 (fun p q => fst p = fst q /\ same_fields (snd p) (snd q)) ps qs ->
  map fst ps = map fst qs.
Proof.
  induction 1 as [|p q ps qs [Hk _] _ IH]; [reflexivity|].
  cbn [map]. now rewrite Hk, IH.
Qed.

(** The order-independent half of C7: payloads with the same fields,
    built with their keys in different orders at any depth, have the
    same canonical string and the same seal. *)
Lemma key_order_irrelevant (env : Env) (p q : Obj) :
  same_fields (JObject p) (JObject q) ->
  dataString p = dataString q
  /\ generateSecurityHash env p = generateSecurityHash env q.
Proof.
  intros H.
  assert (dataString p = dataString q) as Hd;
    [|split; [exact Hd | now apply same_dataString_same_seal]].
  inversion H as [v | | ps qs qs' Hps Hperm Hnd]; subst; [reflexivity|].
  unfold dataString, JSON_stringify.
  set (cp := delete_property "securityHash" p).
  set (cq := delete_property "securityHash" q).
  assert (Array_sort (Object_keys cp) = Array_sort (Object_keys cq)) as ->.
  { apply Array_sort_perm. unfold Object_keys, cp, cq.
    rewrite (same_fields_keys _ _ (delete_property_same "securityHash" _ _ Hps)).
    apply Permutation_map, delete_property_perm, Hperm. }
  f_equal. apply serialize_same_fields.
  apply (same_object cp (delete_property "securityHash" qs) cq).
  - apply delete_property_same, Hps.
  - apply delete_property_perm, Hperm.
  - unfold cp. rewrite delete_property_keys. apply List.NoDup_filter, Hnd.
Qed.

(** *** Keys that the top level does not have *)

Lemma lookup_serialized_app (ms : list (string * option string))
    (k P : string) (r : option string) :
  k <> P ->
  lookup_serialized (ms ++ [(k, r)]) P = lookup_serialized ms P.
Proof.
  intros Hne. induction ms as [|[k0 r0] ms IH]; cbn [app lookup_serialized].
  - destruct (String.eqb_spec k P); [contradiction | reflexivity].
  - now rewrite IH.
Qed.

(** The general form of the defect behind C6 and C7: a field of an
    object whose key is not in the property list leaves no trace in
    the serialization, whatever its value. *)
Lemma unlisted_key_dropped (K : list string) (ps : Obj) (k : string) (x : JSON) :
  ~ In k K ->
  serialize K (JObject (ps ++ [(k, x)])) = serialize K (JObject ps).
Proof.
  intros Hk. cbn [serialize]. rewrite map_app. cbn [map].
  set (ms := map (fun kv => match kv with (k0, y) => (k0, serialize K y) end) ps).
  assert (forall K', (forall P, In P K' -> In P K) ->
            omap (member (ms ++ [(k, serialize K x)])) K' = omap (member ms) K')
    as Hsame.
  { induction K' as [|P K' IH]; intros Hsub; [reflexivity|].
    csimpl. rewrite IH by (intros P' HP'; apply Hsub; now right).
    unfold member at 1 3. rewrite lookup_serialized_app; [reflexivity|].
    intros ->. apply Hk, Hsub. now left. }
  rewrite Hsame by auto. reflexivity.
Qed.

(** An object always has a canonical string. *)
Lemma stringify_object_defined (o : Obj) (replacer : list string) :
  exists str, JSON_stringify (JObject o) replacer = Some str.
Proof. unfold JSON_stringify. cbn [serialize]. eexists. reflexivity. Qed.

(** Two insertion orders of one payload, at both levels. *)
Example key_order_example :
  dataString
    [ ("shipping", JObject [("incoterm", JString "FOB"); ("shipping", JNull)]);
      ("referenceNumber", JString "R1") ]
  = dataString
    [ ("referenceNumber", JString "R1");
      ("shipping", JObject [("shipping", JNull); ("incoterm", JString "FOB")]) ].
Proof. vm_compute. reflexivity. Qed.

End AttestationProofs.

(** ** Milestone actions *)

Module MilestoneProofs.
Import Milestones MilestoneSpec.

#[local] Arguments count_milestones : simpl never.
#[local] Arguments order_exists : simpl never.
#[local] Arguments Z.eqb : simpl never.
#[local] Arguments Z.gtb : simpl never.
#[local] Arguments Z.add : simpl never.
#[local] Arguments int4 : simpl never.

(** *** The guards of the handlers, in terms of stored rows *)

Lemma count_completed (t : Tables) (o : Z) (a : Action) :
  (count_milestones t (Some o) (milestone_type a) (Some "completed") =? 0)%Z
  = negb (is_completed t o a).
Proof.
  unfold count_milestones, is_completed.
  induction (milestones t) as [|m ms IH]; [reflexivity|].
  cbn [List.filter existsb].
  assert (param_is (Some o) (milestone_orderid m)
          && String.eqb (milestonetype m) (milestone_type a)
          && status_is (Some "completed") (status m)
          = completed_row o (milestone_type a) m) as ->.
  { unfold completed_row, row_of, param_is, status_is.
    now rewrite (String.eqb_sym "completed"). }
  destruct (completed_row o (milestone_type a) m); cbn [orb length].
  - apply Z.eqb_neq. lia.
  - exact IH.
Qed.

Lemma count_rows (t : Tables) (o : Z) (a : Action) :
  count_milestones t (Some o) (milestone_type a) None
  = Z.of_nat (length (rows_of t o a)).
Proof.
  unfold count_milestones, rows_of. do 2 f_equal.
  apply filter_ext. intros m.
  unfold row_of, param_is, status_is. apply andb_true_r.
Qed.

Lemma no_rows_iff (t : Tables) (o : Z) (a : Action) :
  (count_milestones t (Some o) (milestone_type a) None >? 0)%Z = false
  <-> rows_of t o a = [].
Proof.
  rewrite count_rows. destruct (rows_of t o a) as [|m ms]; cbn [length].
  - split; reflexivity.
  - split; [intros H; exfalso | discriminate].
    rewrite Z.gtb_ltb in H. apply Z.ltb_ge in H. lia.
Qed.

Lemma count_null (t : Tables) (ty : string) (st : option string) :
  count_milestones t None ty st = 0.
Proof.
  unfold count_milestones.
  induction (milestones t) as [|m ms IH]; [reflexivity | exact IH].
Qed.

Lemma order_exists_status (t : Tables) (st : string) (p : option Z) (o : Z)
    (inv : list POInvoice) (ms : list Milestone) (cs : list Communication) :
  order_exists (mkTables (map (set_orderstatus st p) (orders t)) inv ms cs) o
  = order_exists t o.
Proof.
  unfold order_exists. cbn [orders].
  induction (orders t) as [|r rs IH]; [reflexivity|].
  cbn [map existsb]. rewrite IH. f_equal.
  unfold set_orderstatus. now destruct (param_is p (order_orderid r)).
Qed.

(** *** What one request does to the tables *)

(** The UPDATE statements of the handlers write the cascade tables. *)
Lemma cascade_invoices_code (a : Action) (st : string) (o now : Z)
    (l : list POInvoice) :
  invoice_status_of a = Some st ->
  map (set_expectedstockstatus st (Some o) now) l = cascade_invoices a o now l.
Proof.
  intros Ha. unfold cascade_invoices. rewrite Ha. apply map_ext. intros i.
  unfold set_expectedstockstatus, param_is. rewrite (Z.eqb_sym o).
  destruct (Z.eqb_spec (invoice_orderid i) o) as [->|_]; reflexivity.
Qed.

Lemma cascade_orders_code (a : Action) (st : string) (o : Z) (l : list Order) :
  order_status_of a = Some st ->
  map (set_orderstatus st (Some o)) l = cascade_orders a o l.
Proof.
  intros Ha. unfold cascade_orders. rewrite Ha. apply map_ext. intros r.
  unfold set_orderstatus, param_is. rewrite (Z.eqb_sym o).
  destruct (Z.eqb_spec (order_orderid r) o) as [->|_]; reflexivity.
Qed.

Ltac step H :=
  match type of H with
  | context [int4 ?v] => destruct (int4 v) eqn:?
  | context [faulty ?c ?n] => destruct (faulty c n) eqn:?
  | context [if (?x =? 0)%Z then _ else _] => destruct (x =? 0)%Z eqn:?
  | context [if (?x >? 0)%Z then _ else _] => destruct (x >? 0)%Z eqn:?
  | context [order_exists ?t ?o] => destruct (order_exists t o) eqn:?
  end; cbn in H.

Ltac run_handler H :=
  unfold with_client, try_catch, mbind, M_bind, mret, M_ret, query, exec in H;
  cbn in H; repeat step H.

Ltac unchanged H :=
  injection H as <- <-; left; split;
  [reflexivity | intros (msg & id & [=])].

Ltac cascade_done H :=
  injection H as <- <-; right; do 2 eexists;
  split; [reflexivity|]; split; [reflexivity|].

Ltac cascade_tables :=
  unfold cascade_applied;
  cbn [tables orders poinvoice milestones communications
       with_orders with_poinvoice with_milestones with_communications];
  split; [first [ reflexivity | apply cascade_orders_code; reflexivity ]|];
  split; [first [ reflexivity | apply cascade_invoices_code; reflexivity ]|];
  split; eexists; repeat split; reflexivity.

(** Every request either leaves all four tables as they were and is not
    answered with a success, or it is answered with a success and has
    applied the whole cascade, after the guard of its handler held. *)
Lemma handle_outcome (a : Action) (req : Body) (c : Ctx) (db db' : Database)
    (r : option Response) :
  handle a req c db = (db', r) ->
  (tables db' = tables db /\ ~ is_success r)
  \/ (exists o u, orderid req = Some o /\ userid req = Some u
        /\ order_exists (tables db) o = true
        /\ guard_passed a (tables db) o
        /\ cascade_applied a o u (now c) (tables db) (tables db')
        /\ is_success r).
Proof.
  intros H. destruct a; cbn [handle] in H.
  - (* confirm-order *)
    unfold confirm_order in H.
    destruct req as [[o|] [u|]]; cbn [orderid userid missing orb] in H;
      try (unchanged H; fail).
    + destruct (o =? 0)%Z eqn:Ho; cbn [orb] in H; [unchanged H|].
      destruct (u =? 0)%Z eqn:Hu; cbn [orb] in H; [unchanged H|].
      run_handler H; try (unchanged H; fail).
      cascade_done H.
      split; [assumption|].
      split; [apply (no_rows_iff (tables db) o ConfirmOrder); assumption|].
      split; [|do 2 eexists; reflexivity].
      cascade_tables.
    + destruct (o =? 0)%Z; cbn [orb] in H; unchanged H.
  - (* ready-to-ship *)
    unfold ready_to_ship in H.
    destruct req as [[o|] [u|]]; cbn [orderid userid] in H;
      run_handler H; try (unchanged H; fail).
    cascade_done H.
    split; [assumption|].
    split; [ pose proof (count_completed (tables db) o ConfirmOrder) as Hc;
             cbn [milestone_type] in Hc; unfold guard_passed; cbn [predecessor];
             destruct (is_completed (tables db) o ConfirmOrder);
             [reflexivity | cbn in Hc; congruence] |].
    split; [|do 2 eexists; reflexivity].
    cascade_tables.
  - (* goods-shipped *)
    unfold goods_shipped in H.
    destruct req as [[o|] [u|]]; cbn [orderid userid] in H;
      run_handler H; try (unchanged H; fail).
    cascade_done H.
    split; [assumption|].
    split; [ pose proof (count_completed (tables db) o ReadyToShip) as Hc;
             cbn [milestone_type] in Hc; unfold guard_passed; cbn [predecessor];
             destruct (is_completed (tables db) o ReadyToShip);
             [reflexivity | cbn in Hc; congruence] |].
    split; [|do 2 eexists; reflexivity].
    cascade_tables.
  - (* goods-arrived *)
    unfold goods_arrived in H.
    destruct req as [[o|] [u|]]; cbn [orderid userid] in H;
      run_handler H; try (unchanged H; fail).
    cascade_done H.
    split; [assumption|].
    split; [ pose proof (count_completed (tables db) o GoodsShipped) as Hc;
             cbn [milestone_type] in Hc; unfold guard_passed; cbn [predecessor];
             destruct (is_completed (tables db) o GoodsShipped);
             [reflexivity | cbn in Hc; congruence] |].
    split; [|do 2 eexists; reflexivity].
    cascade_tables.
  - (* goods-received *)
    unfold goods_received in H.
    destruct req as [[o|] [u|]]; cbn [orderid userid] in H;
      run_handler H; try (unchanged H; fail).
    cascade_done H.
    split; [assumption|].
    split; [ pose proof (count_completed (tables db) o GoodsArrived) as Hc;
             cbn [milestone_type] in Hc; unfold guard_passed; cbn [predecessor];
             destruct (is_completed (tables db) o GoodsArrived);
             [reflexivity | cbn in Hc; congruence] |].
    split; [|do 2 eexists; reflexivity].
    cascade_tables.
Qed.

(** *** Skipping a milestone *)

Ltac no_fault Hff :=
  match goal with
  | F : faulty ?c ?n = true |- _ => rewrite Hff in F; discriminate F
  end.

Ltac guard_fails Hno p :=
  match goal with
  | G : (count_milestones ?t (Some ?o) _ (Some "completed") =? 0)%Z = false |- _ =>
      let Hc := fresh "Hc" in
      pose proof (count_completed t o p) as Hc;
      cbn [milestone_type] in Hc;
      rewrite (Hno o eq_refl) in Hc; cbn [negb] in Hc;
      rewrite Hc in G; discriminate G
  end.

Ltac null_order :=
  match goal with
  | G : (count_milestones ?t None ?ty ?st =? 0)%Z = false |- _ =>
      rewrite (count_null t ty st) in G; discriminate G
  end.

(** The request of an action whose predecessor is not completed leaves
    the whole database as it was, whatever fails on the way. *)
Lemma skip_leaves_database (a p : Action) (req : Body) (c : Ctx) (db : Database) :
  predecessor a = Some p ->
  (forall o, orderid req = Some o -> is_completed (tables db) o p = false) ->
  fst (handle a req c db) = db.
Proof.
  intros Hp Hno.
  destruct (handle a req c db) as [db' r] eqn:H. cbn [fst].
  destruct a; cbn [predecessor] in Hp; try discriminate Hp;
    injection Hp as <-; cbn [handle] in H;
    unfold ready_to_ship, goods_shipped, goods_arrived, goods_received in H;
    destruct req as [[o|] [u|]]; cbn [orderid userid] in H, Hno;
    run_handler H;
    try (injection H as <- _; now destruct db);
    first [ null_order
          | guard_fails Hno ConfirmOrder | guard_fails Hno ReadyToShip
          | guard_fails Hno GoodsShipped | guard_fails Hno GoodsArrived ].
Qed.

Ltac in_range :=
  match goal with
  | F : int4 ?v = false, G : int4 ?v = true |- _ => rewrite G in F; discriminate F
  end.

(** When nothing fails outside the data and the order id is one that
    the INT column can hold (or null), that request is answered with
    status 400 and an error message. *)
Lemma skip_answered_400 (a p : Action) (req : Body) (c : Ctx) (db : Database) :
  predecessor a = Some p ->
  (forall o, orderid req = Some o -> is_completed (tables db) o p = false) ->
  fault_free c ->
  binds (orderid req) = true ->
  is_client_error (snd (handle a req c db)).
Proof.
  intros Hp Hno Hff Hb.
  destruct (handle a req c db) as [db' r] eqn:H. cbn [snd].
  destruct a; cbn [predecessor] in Hp; try discriminate Hp;
    injection Hp as <-; cbn [handle] in H;
    unfold ready_to_ship, goods_shipped, goods_arrived, goods_received in H;
    destruct req as [[o|] [u|]]; cbn [orderid userid binds] in H, Hno, Hb;
    run_handler H;
    try no_fault Hff;
    try discriminate Hb;
    try (injection H as _ <-; eexists; reflexivity);
    first [ null_order
          | guard_fails Hno ConfirmOrder | guard_fails Hno ReadyToShip
          | guard_fails Hno GoodsShipped | guard_fails Hno GoodsArrived ].
Qed.

(** An order id outside the INT range names no order: the first
    statement that carries it is refused when it is bound, nothing is
    written, and the handler's [catch] answers 500. *)
Lemma out_of_range_order_refused (a : Action) (o : Z) (uid : option Z) (c : Ctx)
    (db : Database) :
  int4 o = false ->
  (a = ConfirmOrder -> missing uid = false) ->
  fst (handle a (mkBody (Some o) uid) c db) = db
  /\ (fault_free c ->
      snd (handle a (mkBody (Some o) uid) c db)
      = Some (mkResponse 500 (error (Thrown NumericValueOutOfRange)))).
Proof.
  intros Hint Hu.
  assert ((o =? 0)%Z = false) as Ho
    by (apply Z.eqb_neq; intros ->; discriminate Hint).
  destruct (handle a (mkBody (Some o) uid) c db) as [db' r] eqn:H.
  cbn [fst snd].
  destruct a; cbn [handle] in H;
    unfold confirm_order, ready_to_ship, goods_shipped, goods_arrived,
      goods_received in H;
    cbn [orderid userid missing] in H;
    rewrite ?Ho, ?(Hu eq_refl) in H; cbn [orb] in H;
    unfold with_client, try_catch, mbind, M_bind, mret, M_ret, query, exec in H;
    cbn in H; rewrite ?Hint in H; cbn in H; repeat step H;
    injection H as <- <-;
    (split; [now destruct db | intros Hff; first [no_fault Hff | reflexivity]]).
Qed.

(** C3.  An action whose required predecessor is not completed for
    the order performs no writes: the database after the request is the
    database before it (orders, invoices, milestones, communications
    and the sequences), whatever fails on the way; and when no statement
    fails outside the data, the request for an order (an id that the
    INT column can hold) or without an order id is answered with status
    400 and an error message. *)
Theorem skipped_predecessor_rejected (a p : Action) (req : Body) (c : Ctx)
    (db : Database) :
  predecessor a = Some p ->
  (forall o, orderid req = Some o -> is_completed (tables db) o p = false) ->
  fst (handle a req c db) = db
  /\ (fault_free c -> binds (orderid req) = true ->
      is_client_error (snd (handle a req c db))).
Proof.
  intros Hp Hno. split.
  - eapply skip_leaves_database; eassumption.
  - intros Hff Hb. eapply skip_answered_400; eassumption.
Qed.

Lemma skipped_predecessor_rejected_witness :
  predecessor ReadyToShip = Some ConfirmOrder
  /\ is_completed (tables ScenarioA.store) 42 ConfirmOrder = false
  /\ fault_free (ScenarioA.undisturbed 1000)
  /\ binds (orderid ScenarioA.request) = true
  /\ fst (handle ReadyToShip ScenarioA.request (ScenarioA.undisturbed 1000)
            ScenarioA.store) = ScenarioA.store
  /\ is_client_error (snd (handle ReadyToShip ScenarioA.request
                             (ScenarioA.undisturbed 1000) ScenarioA.store)).
Proof.
  assert (fault_free (ScenarioA.undisturbed 1000)) as Hff by (intros n; reflexivity).
  split; [reflexivity|]. split; [reflexivity|]. split; [exact Hff|].
  split; [reflexivity|].
  destruct (skipped_predecessor_rejected ReadyToShip ConfirmOrder ScenarioA.request
              (ScenarioA.undisturbed 1000) ScenarioA.store eq_refl) as [Hsame Hcode].
  - intros o [= <-]. reflexivity.
  - split; [exact Hsame | exact (Hcode Hff eq_refl)].
Defined.

(** The same request for the id 2147483648, which no order has, is
    answered with 500; nothing is written. *)
Example skipped_predecessor_out_of_range :
  handle ReadyToShip (mkBody (Some 2147483648) (Some 7)) (ScenarioA.undisturbed 1000)
    ScenarioA.store
  = (ScenarioA.store,
     Some (mkResponse 500 (error (Thrown NumericValueOutOfRange)))).
Proof. vm_compute. reflexivity. Qed.

(** The cascade tables, field by field. *)
Lemma cascade_invoices_fields (a : Action) (o now : Z) (l : list POInvoice) :
  Forall2 (invoice_cascaded a o now) l (cascade_invoices a o now l).
Proof.
  unfold cascade_invoices, invoice_cascaded.
  destruct (invoice_status_of a) as [st|].
  - induction l as [|i l IH]; cbn [map]; constructor; [|exact IH].
    destruct (Z.eqb_spec (invoice_orderid i) o) as [<-|_];
      cbn [poinvoiceid invoice_orderid expectedstockstatus invoice_updatedat];
      repeat split.
  - induction l as [|i l IH]; constructor; [repeat split | exact IH].
Qed.

Lemma cascade_orders_fields (a : Action) (o : Z) (l : list Order) :
  Forall2 (order_cascaded a o) l (cascade_orders a o l).
Proof.
  unfold cascade_orders, order_cascaded.
  destruct (order_status_of a) as [st|].
  - induction l as [|r l IH]; cbn [map]; constructor; [|exact IH].
    destruct (Z.eqb_spec (order_orderid r) o) as [<-|_];
      cbn [order_orderid orderstatus]; repeat split.
  - induction l as [|r l IH]; constructor; [repeat split | exact IH].
Qed.

(** C4.  A request that is answered with a success has applied the
    mapped cascade and nothing else to invoices and orders.  The
    invoice table after it has the old invoices in their order, each
    with its id and its order; every invoice of the order carries the
    status that [invoice_status_of] gives for the action ('confirmed'
    for ready-to-ship, 'shipped', 'arrived', 'completed' for the next
    three) and the time of the request, and every other invoice, and
    every invoice when the action is the order confirmation, carries
    the status and time it had.  The order table has the old orders in
    their order; the order of the request carries the status that
    [order_status_of] gives ('Confirmed', 'Shipped', 'Completed'), and
    every other order, and every order when the action is ready-to-ship
    or goods-arrived, carries the status it had. *)
Theorem success_applies_mapped_cascade (a : Action) (req : Body) (c : Ctx)
    (db : Database) :
  is_success (snd (handle a req c db)) ->
  exists o, orderid req = Some o
    /\ Forall2 (invoice_cascaded a o (now c))
         (poinvoice (tables db))
         (poinvoice (tables (fst (handle a req c db))))
    /\ Forall2 (order_cascaded a o)
         (orders (tables db))
         (orders (tables (fst (handle a req c db)))).
Proof.
  intros Hok.
  destruct (handle a req c db) as [db' r] eqn:H. cbn [fst snd] in *.
  destruct (handle_outcome a req c db db' r H)
    as [[_ Hno] | (o & u & Ho & _ & _ & _ & (Hord & Hinv & _) & _)].
  - contradiction.
  - exists o. split; [exact Ho|]. rewrite Hord, Hinv.
    split; [apply cascade_invoices_fields | apply cascade_orders_fields].
Qed.

Lemma success_applies_mapped_cascade_witness :
  let before :=
    serve_all [ScenarioA.call ConfirmOrder 1000; ScenarioA.call ReadyToShip 2000]
      ScenarioA.store in
  let after :=
    fst (handle GoodsShipped ScenarioA.request (ScenarioA.undisturbed 3000) before) in
  is_success (snd (handle GoodsShipped ScenarioA.request (ScenarioA.undisturbed 3000)
                     before))
  /\ map (fun i => (poinvoiceid i, expectedstockstatus i, invoice_updatedat i))
         (poinvoice (tables after))
     = [(1, "shipped", 3000); (2, "planning", 0); (3, "shipped", 3000)]
  /\ exists o, orderid ScenarioA.request = Some o
       /\ Forall2 (invoice_cascaded GoodsShipped o 3000)
            (poinvoice (tables before)) (poinvoice (tables after))
       /\ Forall2 (order_cascaded GoodsShipped o)
            (orders (tables before)) (orders (tables after)).
Proof.
  cbv zeta.
  assert (is_success (snd (handle GoodsShipped ScenarioA.request
    (ScenarioA.undisturbed 3000)
    (serve_all [ScenarioA.call ConfirmOrder 1000; ScenarioA.call ReadyToShip 2000]
       ScenarioA.store)))) as Hok by (do 2 eexists; vm_compute; reflexivity).
  split; [exact Hok|]. split; [vm_compute; reflexivity|].
  exact (success_applies_mapped_cascade GoodsShipped ScenarioA.request
           (ScenarioA.undisturbed 3000) _ Hok).
Defined.

(** The cascade tables, row by row. *)
Lemma cascade_invoices_rows (a : Action) (st : string) (o now : Z)
    (l : list POInvoice) (i : POInvoice) :
  invoice_status_of a = Some st ->
  In i (cascade_invoices a o now l) ->
  if (o =? invoice_orderid i)%Z
  then expectedstockstatus i = st
  else In i l.
Proof.
  unfold cascade_invoices. intros -> Hin.
  apply in_map_iff in Hin. destruct Hin as (j & <- & Hj).
  destruct (Z.eqb_spec (invoice_orderid j) o) as [E|E];
    cbn [invoice_orderid expectedstockstatus].
  - now rewrite Z.eqb_refl.
  - rewrite (proj2 (Z.eqb_neq o (invoice_orderid j))) by congruence. exact Hj.
Qed.

Lemma cascade_orders_rows (a : Action) (st : string) (o : Z)
    (l : list Order) (r : Order) :
  order_status_of a = Some st ->
  In r (cascade_orders a o l) ->
  if (o =? order_orderid r)%Z
  then orderstatus r = st
  else In r l.
Proof.
  unfold cascade_orders. intros -> Hin.
  apply in_map_iff in Hin. destruct Hin as (j & <- & Hj).
  destruct (Z.eqb_spec (order_orderid j) o) as [E|E];
    cbn [order_orderid orderstatus].
  - now rewrite Z.eqb_refl.
  - rewrite (proj2 (Z.eqb_neq o (order_orderid j))) by congruence. exact Hj.
Qed.

(** C5.  The four effects of a milestone request are all-or-nothing:
    after the request the four tables either are exactly what they were
    (and the request was not answered with a success), or they carry
    the whole cascade (milestone row, invoices, order, communication)
    and the request was answered with a success; this holds for every
    pattern of failing statements.  In particular the invoice table
    differs from the old one only if the milestone row of the action
    has been appended. *)
Theorem cascade_all_or_nothing (a : Action) (req : Body) (c : Ctx) (db : Database) :
  let db' := fst (handle a req c db) in
  let r := snd (handle a req c db) in
  ((tables db' = tables db /\ ~ is_success r)
   \/ (exists o u, orderid req = Some o /\ userid req = Some u
         /\ cascade_applied a o u (now c) (tables db) (tables db')
         /\ is_success r))
  /\ (poinvoice (tables db') <> poinvoice (tables db) ->
      exists m, milestones (tables db') = milestones (tables db) ++ [m]
        /\ milestonetype m = milestone_type a /\ status m = "completed").
Proof.
  cbv zeta.
  destruct (handle a req c db) as [db' r] eqn:H. cbn [fst snd].
  destruct (handle_outcome a req c db db' r H)
    as [[Hsame Hno] | (o & u & Ho & Hu & _ & _ & Hcas & Hok)].
  - split; [left; split; assumption|].
    intros Hne. rewrite Hsame in Hne. contradiction.
  - split; [right; exists o, u; auto|].
    intros _. destruct Hcas as (_ & _ & (m & Hm & _ & Hty & Hst & _) & _).
    exists m. auto.
Qed.

Lemma cascade_all_or_nothing_witness :
  let db :=
    serve_all [ScenarioA.call ConfirmOrder 1000; ScenarioA.call ReadyToShip 2000]
      ScenarioA.store in
  let c := mkCtx 3000 (Nat.eqb 4) in
  let db' := fst (handle GoodsShipped ScenarioA.request c db) in
  let r := snd (handle GoodsShipped ScenarioA.request c db) in
  ((tables db' = tables db /\ ~ is_success r)
   \/ (exists o u, orderid ScenarioA.request = Some o
         /\ userid ScenarioA.request = Some u
         /\ cascade_applied GoodsShipped o u (now c) (tables db) (tables db')
         /\ is_success r))
  /\ (poinvoice (tables db') <> poinvoice (tables db) ->
      exists m, milestones (tables db') = milestones (tables db) ++ [m]
        /\ milestonetype m = milestone_type GoodsShipped
        /\ status m = "completed").
Proof.
  exact (cascade_all_or_nothing GoodsShipped ScenarioA.request
           (mkCtx 3000 (Nat.eqb 4))
           (serve_all [ScenarioA.call ConfirmOrder 1000;
                       ScenarioA.call ReadyToShip 2000] ScenarioA.store)).
Defined.

(** Goods-shipped whose fifth statement, the update of the order, is
    lost: the invoices and the milestone row written before it are
    rolled back, the answer is 500, only the sequence has moved. *)
Example failed_statement_rolls_back :
  let db :=
    serve_all [ScenarioA.call ConfirmOrder 1000; ScenarioA.call ReadyToShip 2000]
      ScenarioA.store in
  let res := goods_shipped ScenarioA.request (mkCtx 3000 (Nat.eqb 4)) db in
  tables (fst res) = tables db
  /\ snd res = Some (mkResponse 500 (error (Thrown ConnectionFailure)))
  /\ milestones_milestoneid_seq (sequences (fst res))
     = milestones_milestoneid_seq (sequences db) + 1.
Proof. vm_compute. repeat split. Qed.

(** *** The completed types of an order *)

Lemma milestone_type_inj (a b : Action) :
  milestone_type a = milestone_type b -> a = b.
Proof. destruct a, b; cbn; intros H; try reflexivity; discriminate H. Qed.

Lemma completed_row_spec (o : Z) (ty : string) (m : Milestone) :
  completed_row o ty m = true
  <-> milestone_orderid m = o /\ milestonetype m = ty /\ status m = "completed".
Proof.
  unfold completed_row, row_of.
  rewrite !andb_true_iff, Z.eqb_eq, !String.eqb_eq. intuition congruence.
Qed.

Lemma is_completed_app (t t' : Tables) (o : Z) (a : Action) (m : Milestone) :
  milestones t' = milestones t ++ [m] ->
  is_completed t' o a
  = is_completed t o a || completed_row o (milestone_type a) m.
Proof.
  unfold is_completed. intros ->. rewrite existsb_app. cbn [existsb].
  now rewrite orb_false_r.
Qed.

Lemma chain_closed_same (t t' : Tables) (o : Z) :
  milestones t' = milestones t -> chain_closed t o -> chain_closed t' o.
Proof. unfold chain_closed, is_completed. now intros ->. Qed.

Lemma chain_closed_init (t : Tables) (o : Z) :
  (forall m, In m (milestones t) -> milestone_orderid m <> o) ->
  chain_closed t o.
Proof.
  intros Hnone. split.
  - intros m Hin Ho. destruct (Hnone m Hin Ho).
  - intros a p _ H. unfold is_completed in H.
    apply existsb_exists in H. destruct H as (m & Hin & Hm).
    apply completed_row_spec in Hm. destruct (Hnone m Hin). tauto.
Qed.

(** One served request keeps the completed types closed under
    predecessors. *)
Lemma chain_closed_serve (db : Database) (k : Call) (o : Z) :
  chain_closed (tables db) o -> chain_closed (tables (serve db k)) o.
Proof.
  intros [Hrows Hclosed]. unfold serve.
  destruct (handle (action k) (body k) (ctx k) db) as [db' r] eqn:H. cbn [fst].
  destruct (handle_outcome _ _ _ _ _ _ H)
    as [[Hsame _] | (o' & u & _ & _ & _ & Hguard & Hcas & _)].
  - apply (chain_closed_same (tables db)); [now rewrite Hsame | now split].
  - destruct Hcas as (_ & _ & (m & Hm & Hmo & Hty & Hst & _) & _).
    split.
    + intros m' Hin Ho. rewrite Hm in Hin. apply in_app_or in Hin.
      destruct Hin as [Hin | [<- | []]]; [now apply Hrows|].
      split; [exact Hst | now exists (action k)].
    + intros a p Hp. rewrite !(is_completed_app _ _ o _ m Hm).
      intros Ha. apply orb_true_iff in Ha. apply orb_true_iff.
      destruct Ha as [Ha | Ha]; [left; now apply (Hclosed a p)|].
      left. apply completed_row_spec in Ha. destruct Ha as (Ho & Hty' & _).
      rewrite Hty in Hty'. apply milestone_type_inj in Hty'. subst a.
      unfold guard_passed in Hguard. rewrite Hp in Hguard. congruence.
Qed.

Lemma chain_closed_serve_all (calls : list Call) (db : Database) (o : Z) :
  chain_closed (tables db) o -> chain_closed (tables (serve_all calls db)) o.
Proof.
  unfold serve_all. revert db.
  induction calls as [|k calls IH]; intros db Hc; [exact Hc|].
  cbn [fold_left]. apply IH, chain_closed_serve, Hc.
Qed.

(** Completed types that are closed under predecessors are a prefix of
    the chain. *)
Lemma chain_closed_prefix (t : Tables) (o : Z) :
  chain_closed t o -> exists n, (n <= 5)%nat /\ completed_prefix t o n.
Proof.
  intros [Hrows Hclosed].
  assert (forall ty, existsb (completed_row o ty) (milestones t) = true ->
                     exists a, ty = milestone_type a /\ is_completed t o a = true)
    as Htypes.
  { intros ty H. pose proof H as H'. apply existsb_exists in H'.
    destruct H' as (m & Hin & Hm). apply completed_row_spec in Hm.
    destruct Hm as (Ho & Hty & _).
    destruct (Hrows m Hin Ho) as [_ [a Ha]]. exists a.
    split; [congruence|]. unfold is_completed. now rewrite <- Ha, Hty. }
  pose proof (Hclosed ReadyToShip ConfirmOrder eq_refl) as H21.
  pose proof (Hclosed GoodsShipped ReadyToShip eq_refl) as H32.
  pose proof (Hclosed GoodsArrived GoodsShipped eq_refl) as H43.
  pose proof (Hclosed GoodsReceived GoodsArrived eq_refl) as H54.
  assert (forall n,
    (forall a, is_completed t o a = true <-> In a (firstn n chain)) ->
    completed_prefix t o n) as Hlift.
  { intros n Hn ty. split.
    - intros H. destruct (Htypes ty H) as (a & -> & Ha).
      apply in_map, Hn, Ha.
    - intros H. apply in_map_iff in H. destruct H as (a & <- & Ha).
      apply Hn in Ha. exact Ha. }
  destruct (is_completed t o ConfirmOrder) eqn:E1;
  destruct (is_completed t o ReadyToShip) eqn:E2;
  destruct (is_completed t o GoodsShipped) eqn:E3;
  destruct (is_completed t o GoodsArrived) eqn:E4;
  destruct (is_completed t o GoodsReceived) eqn:E5;
  try (specialize (H21 eq_refl); discriminate H21);
  try (specialize (H32 eq_refl); discriminate H32);
  try (specialize (H43 eq_refl); discriminate H43);
  try (specialize (H54 eq_refl); discriminate H54);
  [ exists 5%nat | exists 4%nat | exists 3%nat | exists 2%nat
  | exists 1%nat | exists 0%nat ];
  (split; [lia|]); apply Hlift; intros a; cbn [firstn chain In];
  (split; [ intros Ha; destruct a; try congruence; tauto
          | intros Ha; destruct a; try assumption;
            repeat (destruct Ha as [Ha|Ha]; try discriminate Ha); try contradiction ]).
Qed.

(** The prefix half of the milestone invariant: for an order that starts
    without milestone rows, after any sequence of requests to the five
    guarded actions, with any failures, the completed types of the
    order are exactly an initial segment of the chain. *)
Lemma completed_types_form_prefix (calls : list Call) (db : Database) (o : Z) :
  (forall m, In m (milestones (tables db)) -> milestone_orderid m <> o) ->
  exists n, (n <= 5)%nat /\ completed_prefix (tables (serve_all calls db)) o n.
Proof.
  intros Hnone. apply chain_closed_prefix, chain_closed_serve_all.
  apply chain_closed_init, Hnone.
Qed.

(** *** Repeated actions *)

Lemma rows_of_app (t t' : Tables) (o : Z) (a : Action) (m : Milestone) :
  milestones t' = milestones t ++ [m] ->
  rows_of t' o a
  = rows_of t o a ++ (if row_of o (milestone_type a) m then [m] else []).
Proof.
  unfold rows_of. intros ->. rewrite List.filter_app. cbn [List.filter].
  reflexivity.
Qed.

Ltac order_known Hex :=
  match goal with
  | G : order_exists _ _ = false |- _ =>
      unfold with_orders, with_poinvoice, with_milestones, with_communications in G;
      cbn [orders poinvoice milestones communications] in G;
      rewrite ?order_exists_status in G;
      unfold order_exists in G, Hex; cbn [orders] in G;
      rewrite Hex in G; discriminate G
  end.

Ltac guard_holds Hdone q :=
  match goal with
  | G : (count_milestones ?t (Some ?o) _ (Some "completed") =? 0)%Z = true |- _ =>
      let Hc := fresh "Hc" in
      pose proof (count_completed t o q) as Hc;
      cbn [milestone_type] in Hc;
      rewrite Hdone in Hc; cbn [negb] in Hc;
      rewrite Hc in G; discriminate G
  end.

(** The four later handlers look at the predecessor only: when it is
    completed, the order exists, the ids are INT values and nothing
    fails, the request is answered with a success and appends a row of
    its type, whether or not such a row is already there. *)
Lemma later_action_accepted (a p : Action) (o u : Z) (c : Ctx) (db : Database) :
  predecessor a = Some p ->
  int4 o = true -> int4 u = true ->
  order_exists (tables db) o = true ->
  is_completed (tables db) o p = true ->
  fault_free c ->
  is_success (snd (handle a (mkBody (Some o) (Some u)) c db))
  /\ length (rows_of (tables (fst (handle a (mkBody (Some o) (Some u)) c db))) o a)
     = S (length (rows_of (tables db) o a)).
Proof.
  intros Hp Ho4 Hu4 Hex Hdone Hff.
  destruct (handle a (mkBody (Some o) (Some u)) c db) as [db' r] eqn:H.
  cbn [fst snd].
  assert (is_success r) as Hok.
  { destruct a; cbn [predecessor] in Hp; try discriminate Hp;
      injection Hp as <-; cbn [handle] in H;
      unfold ready_to_ship, goods_shipped, goods_arrived, goods_received in H;
      cbn [orderid userid] in H;
      run_handler H;
      try no_fault Hff;
      try discriminate Ho4; try discriminate Hu4;
      try (injection H as _ <-; do 2 eexists; reflexivity);
      first [ order_known Hex
            | guard_holds Hdone ConfirmOrder | guard_holds Hdone ReadyToShip
            | guard_holds Hdone GoodsShipped | guard_holds Hdone GoodsArrived ]. }
  split; [exact Hok|].
  destruct (handle_outcome _ _ _ _ _ _ H)
    as [[_ Hno] | (o' & u' & Ho & _ & _ & _ & Hcas & _)]; [contradiction|].
  cbn [orderid] in Ho. injection Ho as <-.
  destruct Hcas as (_ & _ & (m & Hm & Hmo & Hty & _) & _).
  rewrite (rows_of_app _ _ o a m Hm).
  assert (row_of o (milestone_type a) m = true) as ->.
  { unfold row_of. rewrite Hmo, Hty, Z.eqb_refl, String.eqb_refl. reflexivity. }
  rewrite length_app. cbn [length]. lia.
Qed.

(** The order confirmation does refuse a repetition: one order never
    gets a second row of type [order_confirmed] from these handlers. *)
Lemma confirmation_recorded_once (calls : list Call) (db : Database) (o : Z) :
  (length (rows_of (tables db) o ConfirmOrder) <= 1)%nat ->
  (length (rows_of (tables (serve_all calls db)) o ConfirmOrder) <= 1)%nat.
Proof.
  unfold serve_all. revert db.
  induction calls as [|k calls IH]; intros db Hlen; [exact Hlen|].
  cbn [fold_left]. apply IH. unfold serve.
  destruct (handle (action k) (body k) (ctx k) db) as [db' r] eqn:H. cbn [fst].
  destruct (handle_outcome _ _ _ _ _ _ H)
    as [[Hsame _] | (o' & u & _ & _ & _ & Hguard & Hcas & _)].
  - unfold rows_of in *. now rewrite Hsame.
  - destruct Hcas as (_ & _ & (m & Hm & Hmo & Hty & _) & _).
    rewrite (rows_of_app _ _ o ConfirmOrder m Hm).
    unfold row_of. rewrite Hmo, Hty.
    destruct (o =? o')%Z eqn:Eo; cbn [andb].
    + apply Z.eqb_eq in Eo. rewrite <- Eo in Hguard.
      destruct (action k); cbn [milestone_type String.eqb];
        try (cbn; rewrite app_nil_r; exact Hlen).
      unfold guard_passed in Hguard. cbn [predecessor] in Hguard.
      rewrite Hguard. cbn. lia.
    + rewrite app_nil_r. exact Hlen.
Qed.

(** C1.  At most one row per (order, type) does not hold on the code:
    order 42 starts without milestones, is confirmed, and is marked
    ready to ship twice; the second request passes the only check of
    its handler (the predecessor is completed), and the table ends with
    two rows of type [ready_to_ship] for the order. *)
Theorem repeated_action_duplicates_row :
  let after :=
    serve_all [ ScenarioA.call ConfirmOrder 1000;
                ScenarioA.call ReadyToShip 2000;
                ScenarioA.call ReadyToShip 3000 ] ScenarioA.store in
  milestones (tables ScenarioA.store) = []
  /\ map milestoneid (rows_of (tables after) 42 ReadyToShip) = [2; 3]
  /\ length (rows_of (tables after) 42 ReadyToShip) = 2%nat.
Proof. vm_compute. repeat split. Qed.

(** C2.  A repeated action is not refused by the four later handlers:
    with ready-to-ship already completed for order 42, the same request
    is answered with status 200 and leaves two completed rows of that
    type. *)
Theorem repeated_ready_to_ship_succeeds :
  let before :=
    serve_all [ ScenarioA.call ConfirmOrder 1000;
                ScenarioA.call ReadyToShip 2000 ] ScenarioA.store in
  let again := ready_to_ship ScenarioA.request (ScenarioA.undisturbed 3000) before in
  is_completed (tables before) 42 ReadyToShip = true
  /\ snd again = Some (mkResponse 200 (success "Goods marked as ready to ship" None))
  /\ length (List.filter (completed_row 42 "ready_to_ship")
               (milestones (tables (fst again)))) = 2%nat.
Proof. vm_compute. repeat split. Qed.

(** The same repetition of the order confirmation is refused. *)
Example repeated_confirmation_refused :
  let before := serve_all [ ScenarioA.call ConfirmOrder 1000 ] ScenarioA.store in
  confirm_order ScenarioA.request (ScenarioA.undisturbed 2000) before
  = (before, Some (mkResponse 400 (error (Message "Order already confirmed")))).
Proof. vm_compute. reflexivity. Qed.

(** Scenario A of the specification, on the code. *)
Example scenario_A :
  let s1 := confirm_order ScenarioA.request (ScenarioA.undisturbed 1000) ScenarioA.store in
  let s2 := ready_to_ship ScenarioA.request (ScenarioA.undisturbed 2000) (fst s1) in
  let s3 := goods_arrived ScenarioA.request (ScenarioA.undisturbed 3000) (fst s2) in
  option_map code (snd s1) = Some 200
  /\ map (fun m => (milestonetype m, status m)) (milestones (tables (fst s1)))
     = [("order_confirmed", "completed")]
  /\ map orderstatus (orders (tables (fst s1))) = ["Pending"; "Confirmed"]
  /\ option_map code (snd s2) = Some 200
  /\ map (fun i => (invoice_orderid i, expectedstockstatus i))
         (poinvoice (tables (fst s2)))
     = [(42, "confirmed"); (41, "planning"); (42, "confirmed")]
  /\ snd s3 = Some (mkResponse 400
       (error (Message "Goods must be shipped before they can arrive")))
  /\ fst s3 = fst s2.
Proof. vm_compute. repeat split. Qed.

End MilestoneProofs.

(** ** Manual status overrides *)

Module OverrideProofs.
Import Milestones MilestoneSpec Overrides.

Lemma database_eta (db : Database) :
  mkDatabase (mkTables (orders (tables db)) (poinvoice (tables db))
                (milestones (tables db)) (communications (tables db)))
             (sequences db) = db.
Proof. destruct db as [[? ? ? ?] ?]. reflexivity. Qed.

(** *** The invoice status override *)

Lemma set_invoice_status_none (id : Z) (st : string) (now : Z) (l : list POInvoice) :
  List.filter (fun r => (id =? poinvoiceid r)%Z) l = [] ->
  map (set_invoice_status id st now) l = l.
Proof.
  induction l as [|r l IH]; [reflexivity|].
  cbn [List.filter map]. unfold set_invoice_status at 1.
  destruct (id =? poinvoiceid r)%Z; [discriminate|].
  intros H. now rewrite IH.
Qed.

Lemma includes_valid (status : Js.Value) :
  includes validStatuses status = true ->
  status = Js.VString (text_of status) /\ In (text_of status) validStatuses.
Proof.
  destruct status; cbn [includes text_of]; try discriminate.
  intros H. split; [reflexivity|].
  apply existsb_exists in H. destruct H as (x & Hx & Heq).
  apply String.eqb_eq in Heq. now subst x.
Qed.

(** The cleanup before the route leaves the five valid statuses as
    they are, and puts null or a number for every string it changes: a
    status is valid after the cleanup exactly when it was valid as
    sent. *)
Lemma valid_statuses_kept_by_cleanup (st : string) :
  In st validStatuses -> clean_status (Some st) = unchanged st.
Proof.
  intros H. cbn in H.
  destruct H as [<- | [<- | [<- | [<- | [<- | []]]]]]; reflexivity.
Qed.

(** X1.  An invoice status override that is not answered with 200 (the
    status is not one of the five, no invoice has the id, or the
    statement is lost) leaves the whole database as it was. *)
Theorem stock_override_refused_unchanged (invoiceId : Z) (status : Js.Value)
    (c : Ctx) (db : Database) :
  stock_code (snd (put_expected_stock_status invoiceId status c db)) <> 200 ->
  fst (put_expected_stock_status invoiceId status c db) = db.
Proof.
  unfold put_expected_stock_status.
  destruct (includes validStatuses status); cbn [negb]; [|reflexivity].
  destruct (faulty c 0); [reflexivity|].
  destruct (int4 invoiceId); cbn [negb]; [|reflexivity].
  unfold invoice_rowCount.
  destruct (List.filter (fun r => (invoiceId =? poinvoiceid r)%Z)
              (poinvoice (tables db))) as [|r l] eqn:E; cbn [length].
  - intros _. cbn [fst]. rewrite set_invoice_status_none by exact E.
    unfold with_poinvoice. apply database_eta.
  - replace (Z.of_nat (S (length l)) =? 0)%Z with false
      by (symmetry; apply Z.eqb_neq; lia).
    cbn [snd stock_code]. intros H. now destruct H.
Qed.

Lemma stock_override_refused_unchanged_witness :
  stock_code (snd (put_expected_stock_status 99 (Js.VString "shipped")
                     (ScenarioA.undisturbed 5) ScenarioA.store)) <> 200
  /\ fst (put_expected_stock_status 99 (Js.VString "shipped")
            (ScenarioA.undisturbed 5) ScenarioA.store) = ScenarioA.store.
Proof.
  assert (stock_code (snd (put_expected_stock_status 99 (Js.VString "shipped")
            (ScenarioA.undisturbed 5) ScenarioA.store)) <> 200) as H
    by (vm_compute; discriminate).
  split; [exact H|].
  exact (stock_override_refused_unchanged 99 (Js.VString "shipped")
           (ScenarioA.undisturbed 5) ScenarioA.store H).
Defined.

(** X2.  An invoice status override that is answered with 200 carried
    one of the five valid statuses and has changed the addressed
    invoice only: the table lists the same invoices in the same order,
    every invoice with the id has the new status and the time of the
    request, every other invoice is an old row, and orders, milestones,
    communications and sequences are untouched. *)
Theorem stock_override_updates_one (invoiceId : Z) (status : Js.Value)
    (c : Ctx) (db : Database) :
  stock_code (snd (put_expected_stock_status invoiceId status c db)) = 200 ->
  let db' := fst (put_expected_stock_status invoiceId status c db) in
  exists st, status = Js.VString st /\ In st validStatuses
    /\ map poinvoiceid (poinvoice (tables db')) = map poinvoiceid (poinvoice (tables db))
    /\ (exists i, In i (poinvoice (tables db')) /\ poinvoiceid i = invoiceId)
    /\ (forall i, In i (poinvoice (tables db')) ->
          if (invoiceId =? poinvoiceid i)%Z
          then expectedstockstatus i = st /\ invoice_updatedat i = now c
          else In i (poinvoice (tables db)))
    /\ orders (tables db') = orders (tables db)
    /\ milestones (tables db') = milestones (tables db)
    /\ communications (tables db') = communications (tables db)
    /\ sequences db' = sequences db.
Proof.
  unfold put_expected_stock_status.
  destruct (includes validStatuses status) eqn:Hinc; cbn [negb];
    [|cbn; discriminate].
  destruct (includes_valid status Hinc) as [Hst Hin].
  destruct (faulty c 0); [cbn; discriminate|].
  destruct (int4 invoiceId); cbn [negb]; [|cbn; discriminate].
  destruct (invoice_rowCount invoiceId (tables db) =? 0)%Z eqn:Hrc;
    [cbn; discriminate|].
  intros _. cbv zeta. cbn [fst tables sequences with_poinvoice orders poinvoice
                            milestones communications].
  exists (text_of status). split; [exact Hst|]. split; [exact Hin|].
  split; [|split; [|split; [|repeat split]]].
  - rewrite map_map. apply map_ext. intros r. unfold set_invoice_status.
    now destruct (invoiceId =? poinvoiceid r)%Z.
  - unfold invoice_rowCount in Hrc.
    destruct (List.filter (fun r => (invoiceId =? poinvoiceid r)%Z)
                (poinvoice (tables db))) as [|r l] eqn:E;
      [cbn in Hrc; discriminate|].
    assert (In r (List.filter (fun r => (invoiceId =? poinvoiceid r)%Z)
                    (poinvoice (tables db)))) as Hr by (rewrite E; now left).
    apply filter_In in Hr. destruct Hr as [Hr Hid].
    exists (set_invoice_status invoiceId (text_of status) (now c) r).
    split; [now apply in_map|].
    unfold set_invoice_status. rewrite Hid. cbn. symmetry. now apply Z.eqb_eq.
  - intros i Hi. apply in_map_iff in Hi. destruct Hi as (r & <- & Hr).
    unfold set_invoice_status.
    destruct (invoiceId =? poinvoiceid r)%Z eqn:E; cbn [poinvoiceid];
      rewrite E; [split; reflexivity | exact Hr].
Qed.

Lemma stock_override_updates_one_witness :
  stock_code (snd (put_expected_stock_status 3 (Js.VString "arrived")
                     (ScenarioA.undisturbed 5) ScenarioA.store)) = 200
  /\ exists st, Js.VString "arrived" = Js.VString st /\ In st validStatuses
       /\ map poinvoiceid
            (poinvoice (tables (fst (put_expected_stock_status 3
               (Js.VString "arrived") (ScenarioA.undisturbed 5) ScenarioA.store))))
          = map poinvoiceid (poinvoice (tables ScenarioA.store)).
Proof.
  assert (stock_code (snd (put_expected_stock_status 3 (Js.VString "arrived")
            (ScenarioA.undisturbed 5) ScenarioA.store)) = 200) as H
    by (vm_compute; reflexivity).
  split; [exact H|].
  destruct (stock_override_updates_one 3 (Js.VString "arrived")
              (ScenarioA.undisturbed 5) ScenarioA.store H)
    as (st & Hst & Hin & Hids & _).
  exists st. auto.
Defined.

(** *** The milestone status override *)




(** What is cut is cut after exactly [n] characters. *)
Lemma split_chars_cut (n : nat) (l a b : list ascii) :
  split_chars n l = (a, b) -> b <> [] ->
  length (List.filter (fun ch => negb (continues ch)) a) = n.
Proof.
  revert n a b. induction l as [|ch l IH]; intros n a b; cbn [split_chars].
  - intros [= <- <-] Hb. now destruct Hb.
  - destruct (continues ch) eqn:Hc.
    + destruct (split_chars n l) as [a' b'] eqn:E. intros [= <- <-] Hb.
      cbn [List.filter]. rewrite Hc. cbn [negb]. eapply IH; eauto.
    + destruct n as [|n]; [intros [= <- <-] _; reflexivity|].
      destruct (split_chars n l) as [a' b'] eqn:E. intros [= <- <-] Hb.
      cbn [List.filter]. rewrite Hc. cbn [negb length]. f_equal.
      eapply IH; eauto.
Qed.

(** The stored status is 'completed' exactly when the status that the
    handler compared was: a status that is cut has 50 characters. *)
Lemma varchar_completed (st stored : string) :
  varchar 50 st = Some stored -> (stored = "completed" <-> st = "completed").
Proof.
  unfold varchar.
  destruct (split_chars 50 (list_ascii_of_string st)) as [a b] eqn:E.
  destruct b as [|x b]; [now intros [= <-]|].
  destruct (forallb (Ascii.eqb " ") (x :: b)); [|discriminate].
  intros [= <-].
  pose proof (split_chars_cut _ _ _ _ E ltac:(discriminate)) as Hcut.
  split; intros H.
  - apply (f_equal list_ascii_of_string) in H.
    rewrite list_ascii_of_string_of_list_ascii in H. rewrite H in Hcut.
    vm_compute in Hcut. discriminate Hcut.
  - subst st. vm_compute in E. discriminate E.
Qed.


(** Either nothing changes, or the statuses of the table are rewritten
    row by row. *)
Lemma put_milestone_cases (mid : Z) (status : option string) (u : option Z)
    (c : Ctx) (db : Database) :
  fst (put_milestone mid status u c db) = db
  \/ exists st d,
       (st = "completed" <-> d <> None)
       /\ fst (put_milestone mid status u c db)
          = mkDatabase
              (with_milestones (tables db)
                 (map (set_milestone_status mid st d (or_null u) (now c))
                    (milestones (tables db))))
              (sequences db).
Proof.
  unfold put_milestone. destruct (faulty c 0); [now left|].
  destruct (int4 mid); cbn [negb]; [|now left].
  destruct (binds_text status); cbn [negb]; [|now left].
  destruct (binds (or_null u)); cbn [negb]; [|now left].
  destruct status as [st|].
  - destruct (varchar 50 st) as [stored|] eqn:Hv; [|now left].
    right. exists stored. eexists. split; [|reflexivity].
    rewrite (varchar_completed st stored Hv).
    destruct (String.eqb_spec st "completed"); split; congruence.
  - destruct (milestone_matches mid (tables db)); now left.
Qed.






(** An override whose id the INT column cannot hold is answered with
    500, whether or not a row matches. *)
Example override_out_of_range :
  put_milestone_request 2147483648 (Some "pending") None (ScenarioA.undisturbed 9)
    ScenarioA.store
  = Some (ScenarioA.store, mkResponse 500 (error (Thrown NumericValueOutOfRange))).
Proof. reflexivity. Qed.

(** A status that the cleanup nulls does not re-open a milestone: the
    store refuses NULL for the status of the row, and the row stays
    completed. *)
Example nulled_status_refused :
  let db := serve_all [ScenarioA.call ConfirmOrder 1000] ScenarioA.store in
  put_milestone_request 1 (Some "") None (ScenarioA.undisturbed 9) db
  = Some (db, mkResponse 500 (error (Thrown (NotNullViolation "status")))).
Proof. reflexivity. Qed.

(** A status with a NUL character is refused by the store. *)
Example nul_status_refused :
  put_milestone_request 1 (Some (String "000" "x")) None (ScenarioA.undisturbed 9)
    ScenarioA.store
  = Some (ScenarioA.store,
          mkResponse 500 (error (Thrown CharacterNotInRepertoire))).
Proof. reflexivity. Qed.

(** A status that is too long by spaces only is cut to 50 characters
    and stored. *)
Example padded_status_cut :
  varchar 50 "pending                                              "
  = Some "pending                                           "
  /\ varchar 50 "pending                                           x" = None.
Proof. split; reflexivity. Qed.



(** *** What all write routes keep *)

Lemma serve_requests_invariant (P : Database -> Prop) :
  (forall db r, P db -> P (serve_request db r)) ->
  forall rs db, P db -> P (serve_requests rs db).
Proof.
  intros Hstep rs. unfold serve_requests.
  induction rs as [|r rs IH]; intros db Hdb; [exact Hdb|].
  cbn [fold_left]. apply IH, Hstep, Hdb.
Qed.

Lemma stock_override_tables (i : Z) (status : Js.Value) (c : Ctx) (db : Database) :
  fst (put_expected_stock_status i status c db) = db
  \/ (In (text_of status) validStatuses
      /\ fst (put_expected_stock_status i status c db)
         = mkDatabase
             (with_poinvoice (tables db)
                (map (set_invoice_status i (text_of status) (now c))
                   (poinvoice (tables db))))
             (sequences db)).
Proof.
  unfold put_expected_stock_status.
  destruct (includes validStatuses status) eqn:Hinc; cbn [negb]; [|now left].
  destruct (faulty c 0); [now left|].
  destruct (int4 i); cbn [negb]; [|now left].
  right. split; [apply includes_valid, Hinc|].
  now destruct (invoice_rowCount i (tables db) =? 0)%Z.
Qed.

Lemma cascade_status_valid (a : Action) (st : string) :
  invoice_status_of a = Some st -> In st validStatuses.
Proof.
  destruct a; cbn; intros H; try discriminate H; injection H as <-;
    unfold validStatuses; cbn; tauto.
Qed.

(** X6.  The invoice status stays in its domain.  If every invoice has
    one of the five statuses planning, confirmed, shipped, arrived,
    completed, then so it is after any sequence of guarded milestone
    requests, invoice status overrides and milestone status overrides,
    with any arguments and any failures. *)
Theorem invoice_statuses_stay_valid (rs : list Request) (db : Database) :
  statuses_valid (tables db) -> statuses_valid (tables (serve_requests rs db)).
Proof.
  apply (serve_requests_invariant (fun d => statuses_valid (tables d))).
  clear rs db. intros db [k | i status c | mid status u c] Hvalid; cbn [serve_request].
  - unfold serve.
    destruct (handle (action k) (body k) (ctx k) db) as [db' r] eqn:H. cbn [fst].
    destruct (MilestoneProofs.handle_outcome _ _ _ _ _ _ H)
      as [[Hsame _] | (o & u & _ & _ & _ & _ & (_ & Hinv & _) & _)].
    + now rewrite Hsame.
    + intros i Hi. rewrite Hinv in Hi.
      destruct (invoice_status_of (action k)) as [st|] eqn:Hst.
      * pose proof (MilestoneProofs.cascade_invoices_rows _ st o (now (ctx k)) _ i
                      Hst Hi) as Hrow.
        destruct (o =? invoice_orderid i)%Z.
        -- rewrite Hrow. eapply cascade_status_valid, Hst.
        -- now apply Hvalid.
      * unfold cascade_invoices in Hi. rewrite Hst in Hi. now apply Hvalid.
  - destruct (stock_override_tables i status c db) as [-> | [Hin ->]];
      [exact Hvalid|].
    intros r Hr. cbn [tables with_poinvoice poinvoice] in Hr.
    apply in_map_iff in Hr. destruct Hr as (r0 & <- & Hr0).
    unfold set_invoice_status.
    destruct (i =? poinvoiceid r0)%Z; [exact Hin | now apply Hvalid].
  - destruct (put_milestone_cases mid status u c db)
      as [-> | (st & d & _ & ->)]; exact Hvalid.
Qed.

Lemma invoice_statuses_stay_valid_witness :
  statuses_valid (tables ScenarioA.store)
  /\ statuses_valid (tables (serve_requests
       [ Guarded (ScenarioA.call ConfirmOrder 1000);
         StockOverride 1 (Js.VString "arrived") (ScenarioA.undisturbed 1500);
         Guarded (ScenarioA.call ReadyToShip 2000) ] ScenarioA.store)).
Proof.
  assert (statuses_valid (tables ScenarioA.store)) as H.
  { intros i Hi. cbn in Hi.
    destruct Hi as [<- | [<- | [<- | []]]]; cbn; tauto. }
  split; [exact H|].
  exact (invoice_statuses_stay_valid _ ScenarioA.store H).
Defined.

(** X7.  Completion dates stay consistent.  If every milestone row
    carries a completion date exactly when its status is 'completed',
    then so it is after any sequence of guarded milestone requests and
    overrides: the guarded handlers insert dated completed rows, and
    the override dates a row when it completes it and clears the date
    otherwise. *)
Theorem completion_dates_stay_consistent (rs : list Request) (db : Database) :
  dated_iff_completed (tables db) ->
  dated_iff_completed (tables (serve_requests rs db)).
Proof.
  apply (serve_requests_invariant (fun d => dated_iff_completed (tables d))).
  clear rs db. intros db [k | i status c | mid status u c] Hinv; cbn [serve_request].
  - unfold serve.
    destruct (handle (action k) (body k) (ctx k) db) as [db' r] eqn:H. cbn [fst].
    destruct (MilestoneProofs.handle_outcome _ _ _ _ _ _ H)
      as [[Hsame _] | (o & u & _ & _ & _ & _ & (_ & _ & Hms & _) & _)].
    + now rewrite Hsame.
    + destruct Hms as (m & Hm & _ & _ & Hst & Hdate & _).
      intros m' Hin. rewrite Hm in Hin. apply in_app_or in Hin.
      destruct Hin as [Hin | [<- | []]]; [now apply Hinv|].
      rewrite Hst, Hdate. split; [discriminate | reflexivity].
  - destruct (stock_override_tables i status c db) as [-> | [_ ->]]; exact Hinv.
  - destruct (put_milestone_cases mid status u c db)
      as [-> | (st & d & Hd & ->)]; [exact Hinv|].
    intros m' Hin. cbn [tables with_milestones milestones] in Hin.
    apply in_map_iff in Hin. destruct Hin as (m & <- & Hm).
    unfold set_milestone_status.
    destruct (mid =? milestoneid m)%Z; [exact Hd | now apply Hinv].
Qed.

Lemma completion_dates_stay_consistent_witness :
  dated_iff_completed (tables ScenarioA.store)
  /\ dated_iff_completed (tables (serve_requests
       [ Guarded (ScenarioA.call ConfirmOrder 1000);
         MilestoneOverride 1 (Some "pending") None (ScenarioA.undisturbed 1500);
         MilestoneOverride 1 (Some "completed") (Some 7) (ScenarioA.undisturbed 1600) ]
       ScenarioA.store)).
Proof.
  assert (dated_iff_completed (tables ScenarioA.store)) as H
    by (intros m []).
  split; [exact H|].
  exact (completion_dates_stay_consistent _ ScenarioA.store H).
Defined.

(** *** Keys *)

Section Keys.
Import MilestoneProofs.

#[local] Arguments count_milestones : simpl never.
#[local] Arguments order_exists : simpl never.
#[local] Arguments Z.eqb : simpl never.
#[local] Arguments Z.gtb : simpl never.
#[local] Arguments Z.add : simpl never.
#[local] Arguments int4 : simpl never.

Ltac keys_leaf H :=
  injection H as <- <-;
  cbn [tables sequences milestones with_milestones with_orders with_poinvoice
       with_communications milestones_milestoneid_seq];
  split; [lia|];
  first [ left; reflexivity
        | right; eexists; split; [reflexivity|];
          cbn [milestoneid new_milestone]; lia ].

(** A guarded request never lowers the milestone sequence, and a row it
    adds takes a key that the sequence had not reached before. *)
Lemma handle_keys (a : Action) (req : Body) (c : Ctx) (db db' : Database)
    (r : option Response) :
  handle a req c db = (db', r) ->
  milestones_milestoneid_seq (sequences db)
    <= milestones_milestoneid_seq (sequences db')
  /\ (milestones (tables db') = milestones (tables db)
      \/ exists m, milestones (tables db') = milestones (tables db) ++ [m]
           /\ milestones_milestoneid_seq (sequences db) < milestoneid m
              <= milestones_milestoneid_seq (sequences db')).
Proof.
  intros H. destruct a; cbn [handle] in H.
  - unfold confirm_order in H.
    destruct req as [[o|] [u|]]; cbn [orderid userid missing orb] in H;
      try (keys_leaf H; fail).
    + destruct (o =? 0)%Z; cbn [orb] in H; [keys_leaf H|].
      destruct (u =? 0)%Z; cbn [orb] in H; [keys_leaf H|].
      run_handler H; keys_leaf H.
    + destruct (o =? 0)%Z; cbn [orb] in H; keys_leaf H.
  - unfold ready_to_ship in H.
    destruct req as [[o|] [u|]]; cbn [orderid userid] in H;
      run_handler H; keys_leaf H.
  - unfold goods_shipped in H.
    destruct req as [[o|] [u|]]; cbn [orderid userid] in H;
      run_handler H; keys_leaf H.
  - unfold goods_arrived in H.
    destruct req as [[o|] [u|]]; cbn [orderid userid] in H;
      run_handler H; keys_leaf H.
  - unfold goods_received in H.
    destruct req as [[o|] [u|]]; cbn [orderid userid] in H;
      run_handler H; keys_leaf H.
Qed.

End Keys.

Lemma keys_of_override (mid : Z) (st : string) (d u : option Z) (now : Z)
    (l : list Milestone) :
  map milestoneid (map (set_milestone_status mid st d u now) l) = map milestoneid l.
Proof.
  rewrite map_map. apply map_ext. intros m. unfold set_milestone_status.
  now destruct (mid =? milestoneid m)%Z.
Qed.

(** X8.  Milestone keys stay unique.  If the milestone ids are pairwise
    distinct and none exceeds the sequence, then so it is after any
    sequence of guarded requests and overrides; this includes guarded
    requests that were rolled back after drawing a key, since the
    sequence keeps what it has handed out. *)
Theorem milestone_keys_stay_unique (rs : list Request) (db : Database) :
  keys_fresh db -> keys_fresh (serve_requests rs db).
Proof.
  apply (serve_requests_invariant keys_fresh).
  clear rs db. intros db [k | i status c | mid status u c] [Hnd Hle];
    cbn [serve_request].
  - unfold serve.
    destruct (handle (action k) (body k) (ctx k) db) as [db' r] eqn:H. cbn [fst].
    destruct (handle_keys _ _ _ _ _ _ H) as [Hseq [Hsame | (m & Hm & Hlo & Hhi)]].
    + split; rewrite Hsame; [exact Hnd|].
      intros m Hin. specialize (Hle m Hin). lia.
    + split; rewrite Hm.
      * rewrite map_app. cbn [map].
        apply List.NoDup_app_remove_l with (l := []).
        cbn [app]. apply Permutation.Permutation_NoDup
          with (l := milestoneid m :: map milestoneid (milestones (tables db))).
        -- apply Permutation.Permutation_cons_append.
        -- constructor; [|exact Hnd].
           intros Hin. apply in_map_iff in Hin.
           destruct Hin as (m0 & Heq & Hm0). specialize (Hle m0 Hm0). lia.
      * intros m' Hin. apply in_app_or in Hin.
        destruct Hin as [Hin | [<- | []]]; [specialize (Hle m' Hin); lia | lia].
  - destruct (stock_override_tables i status c db) as [-> | [_ ->]];
      split; assumption.
  - destruct (put_milestone_cases mid status u c db)
      as [-> | (st & d & _ & ->)]; [split; assumption|].
    split; cbn [tables with_milestones milestones sequences].
    + now rewrite keys_of_override.
    + intros m' Hin. apply in_map_iff in Hin. destruct Hin as (m & <- & Hm).
      specialize (Hle m Hm). unfold set_milestone_status.
      now destruct (mid =? milestoneid m)%Z.
Qed.

Lemma milestone_keys_stay_unique_witness :
  keys_fresh ScenarioA.store
  /\ keys_fresh (serve_requests
       [ Guarded (mkCall ConfirmOrder ScenarioA.request (mkCtx 1000 (Nat.eqb 3)));
         Guarded (ScenarioA.call ConfirmOrder 1100);
         MilestoneOverride 2 (Some "pending") None (ScenarioA.undisturbed 1500) ]
       ScenarioA.store).
Proof.
  assert (keys_fresh ScenarioA.store) as H.
  { split; [constructor | intros m []]. }
  split; [exact H|].
  exact (milestone_keys_stay_unique _ ScenarioA.store H).
Defined.

End OverrideProofs.

(** ** The seal and the verification endpoint *)

Module VerifyProofs.
Import Json Attestation VerifyEndpoint.

Lemma compress_length (h block : list Z) :
  length h = 8%nat -> length (Crypto.compress h block) = 8%nat.
Proof.
  intros Hh. unfold Crypto.compress.
  rewrite length_map, length_combine, Hh. reflexivity.
Qed.

Lemma blocks_length (fuel : nat) :
  forall h words, length h = 8%nat -> length (Crypto.blocks fuel h words) = 8%nat.
Proof.
  induction fuel as [|fuel IH]; intros h words Hh; cbn [Crypto.blocks].
  - now destruct words.
  - destruct words as [|w ws]; [exact Hh|].
    apply IH, compress_length, Hh.
Qed.

Lemma flat_map_length4 (f : Z -> list Z) (l : list Z) :
  (forall x, length (f x) = 4%nat) -> length (flat_map f l) = (4 * length l)%nat.
Proof.
  intros Hf. induction l as [|x l IH]; [reflexivity|].
  cbn [flat_map]. rewrite length_app, Hf, IH. cbn [length]. lia.
Qed.

(** A SHA-256 digest has 32 bytes, whatever the message. *)
Lemma sha256_length (msg : list Z) : length (Crypto.sha256 msg) = 32%nat.
Proof.
  unfold Crypto.sha256. rewrite flat_map_length4.
  - rewrite blocks_length; reflexivity.
  - intros x. unfold Crypto.be_bytes. now rewrite length_map, length_seq.
Qed.

Lemma hex_digit_is_hex (d : Z) : is_hex_digit (Crypto.hex_digit d) = true.
Proof.
  unfold Crypto.hex_digit.
  set (digits := list_ascii_of_string "0123456789abcdef").
  destruct (nth_in_or_default (Z.to_nat d) digits "0"%char) as [Hin | ->];
    [|reflexivity].
  unfold is_hex_digit. fold digits. apply existsb_exists.
  exists (nth (Z.to_nat d) digits "0"%char). split; [exact Hin|].
  apply Ascii.eqb_refl.
Qed.

Lemma hex_chars (bytes : list Z) :
  length (list_ascii_of_string (Crypto.hex bytes)) = (2 * length bytes)%nat
  /\ forallb is_hex_digit (list_ascii_of_string (Crypto.hex bytes)) = true.
Proof.
  unfold Crypto.hex. rewrite list_ascii_of_string_of_list_ascii.
  induction bytes as [|b bytes [IHlen IHall]]; [split; reflexivity|].
  cbn [flat_map app length forallb]. rewrite IHlen, IHall, !hex_digit_is_hex.
  split; [lia | reflexivity].
Qed.

Lemma string_length_chars (s : string) :
  String.length s = length (list_ascii_of_string s).
Proof. induction s as [|ch s IH]; [reflexivity|]. cbn. now rewrite IH. Qed.

(** X9.  The shape of a seal.  For every configuration and payload the
    seal is a string of exactly 64 characters, each one of
    0123456789abcdef; in particular it is never empty and fits the
    128-character column that stores it. *)
Theorem seal_is_64_hex_digits (env : Env) (payload : Obj) :
  String.length (generateSecurityHash env payload) = 64%nat
  /\ forallb is_hex_digit
       (list_ascii_of_string (generateSecurityHash env payload)) = true.
Proof.
  unfold generateSecurityHash, Crypto.createHmac_sha256_hex.
  rewrite string_length_chars.
  destruct (hex_chars (Crypto.hmac_sha256
              (Crypto.bytes_of_string (VPL_SECRET_KEY env))
              (Crypto.bytes_of_string (dataString payload)))) as [Hlen Hall].
  split; [|exact Hall].
  rewrite Hlen. unfold Crypto.hmac_sha256. now rewrite sha256_length.
Qed.

Lemma seal_truthy (env : Env) (payload : Obj) :
  truthy (JString (generateSecurityHash env payload)) = true.
Proof.
  cbn [truthy]. destruct (String.eqb_spec (generateSecurityHash env payload) "")
    as [Hempty|_]; [|reflexivity].
  pose proof (proj1 (seal_is_64_hex_digits env payload)) as Hlen.
  rewrite Hempty in Hlen. discriminate Hlen.
Qed.

(** X10.  Generate, then verify over the wire.  For every configuration
    and payload, the body [{vplData: {...payload, securityHash}}] whose
    hash is the generated seal is answered by the verification endpoint
    with 200 and the payload it was sent. *)
Theorem sealed_payload_accepted (env : Env) (payload : Obj) :
  let sealed := attach payload (generateSecurityHash env payload) in
  post_verify_vpl env [("vplData", JObject sealed)]
  = mkVerifyResponse 200
      (authentic "VPL is authentic and has not been tampered with" (JObject sealed)).
Proof.
  cbv zeta. unfold post_verify_vpl.
  assert (get [("vplData", JObject (attach payload (generateSecurityHash env payload)))]
              "vplData"
          = JObject (attach payload (generateSecurityHash env payload))) as ->
    by reflexivity.
  assert (get (attach payload (generateSecurityHash env payload)) "securityHash"
          = JString (generateSecurityHash env payload)) as ->
    by apply AttestationProofs.get_set_property.
  rewrite seal_truthy. cbn [negb].
  rewrite AttestationProofs.verify_attach, String.eqb_refl. reflexivity.
Qed.

(** X11.  What a 200 means, and that there is no third answer.  The
    endpoint answers with 200 or 400; it answers 200 only to a body
    whose [vplData] is an object carrying, as [securityHash], the very
    string that the HMAC of its other fields gives under the key in
    use. *)
Theorem accepted_means_hmac_matches (env : Env) (body : Obj) :
  (verify_code (post_verify_vpl env body) = 200
   \/ verify_code (post_verify_vpl env body) = 400)
  /\ (verify_code (post_verify_vpl env body) = 200 ->
      exists o, get body "vplData" = JObject o
        /\ get o "securityHash" = JString (generateSecurityHash env o)
        /\ generateSecurityHash env o
           = Crypto.createHmac_sha256_hex (VPL_SECRET_KEY env)
               (dataString (delete_property "securityHash" o))).
Proof.
  unfold post_verify_vpl.
  destruct (get body "vplData") as [| | | | | |o] eqn:Hbody;
    try (split; [right; reflexivity | cbn; discriminate]).
  destruct (truthy (get o "securityHash")); cbn [negb];
    [|split; [right; reflexivity | cbn; discriminate]].
  unfold verifySecurityHash.
  destruct (get o "securityHash") as [| | | | h | |] eqn:Hseal;
    try (split; [right; reflexivity | cbn; discriminate]).
  cbn [isValid strict_equal_string].
  destruct (String.eqb_spec h (generateSecurityHash env o)) as [->|Hne];
    [|split; [right; reflexivity | cbn; discriminate]].
  split; [left; reflexivity|]. intros _. exists o.
  split; [reflexivity|]. split; [exact Hseal|].
  unfold generateSecurityHash, dataString.
  now rewrite AttestationProofs.delete_property_idem.
Qed.

Lemma accepted_means_hmac_matches_witness :
  verify_code (post_verify_vpl ∅
    [("vplData", JObject [("refNumber", JString "R1");
        ("securityHash", JString (generateSecurityHash ∅ [("refNumber", JString "R1")]))])])
  = 200
  /\ exists o, get [("vplData", JObject [("refNumber", JString "R1");
        ("securityHash", JString (generateSecurityHash ∅ [("refNumber", JString "R1")]))])]
        "vplData" = JObject o
       /\ get o "securityHash" = JString (generateSecurityHash ∅ o).
Proof.
  assert (verify_code (post_verify_vpl ∅
    [("vplData", JObject [("refNumber", JString "R1");
        ("securityHash", JString (generateSecurityHash ∅ [("refNumber", JString "R1")]))])])
    = 200) as H by (vm_compute; reflexivity).
  split; [exact H|].
  destruct (proj2 (accepted_means_hmac_matches ∅ _) H) as (o & Ho & Hh & _).
  exists o. auto.
Defined.

(** X12.  A seal that is not the right one is rejected, whatever it
    is.  For every configuration and payload and every truthy value put
    as [securityHash] (any other string, a number, [true], an array, an
    object) that is not the string of the generated seal, the endpoint
    answers 400 'VPL has been tampered with or is invalid' with details
    that are not empty; for a string they read 'Security hash
    mismatch'.  With X10: a payload is accepted exactly with its own
    seal. *)
Theorem wrong_seal_rejected (env : Env) (payload : Obj) (v : JSON) :
  truthy v = true ->
  v <> JString (generateSecurityHash env payload) ->
  exists details,
    post_verify_vpl env
      [("vplData", JObject (set_property "securityHash" v payload))]
    = mkVerifyResponse 400
        (tampered "VPL has been tampered with or is invalid" details)
    /\ details <> ""
    /\ (forall h, v = JString h -> details = "Security hash mismatch").
Proof.
  intros Htruthy Hne. unfold post_verify_vpl.
  assert (get [("vplData", JObject (set_property "securityHash" v payload))] "vplData"
          = JObject (set_property "securityHash" v payload)) as -> by reflexivity.
  rewrite AttestationProofs.get_set_property, Htruthy. cbn [negb].
  unfold verifySecurityHash. rewrite AttestationProofs.get_set_property.
  assert (generateSecurityHash env (set_property "securityHash" v payload)
          = generateSecurityHash env payload) as ->.
  { unfold generateSecurityHash, dataString.
    now rewrite AttestationProofs.delete_set_property. }
  destruct v as [| |b|n|h|l|o]; try discriminate Htruthy;
    cbn [isValid strict_equal_string details_of String.eqb];
    try (eexists; split; [reflexivity|]; split; [discriminate|];
         intros h' [=]; fail).
  destruct (String.eqb_spec h (generateSecurityHash env payload)) as [->|_];
    [now destruct Hne|].
  eexists. split; [reflexivity|]. split; [discriminate | reflexivity].
Qed.

Lemma wrong_seal_rejected_witness :
  exists details,
    post_verify_vpl ∅
      [("vplData", JObject (set_property "securityHash" (JNumber 7)
                              [("refNumber", JString "R1")]))]
    = mkVerifyResponse 400
        (tampered "VPL has been tampered with or is invalid" details)
    /\ details <> "".
Proof.
  destruct (wrong_seal_rejected ∅ [("refNumber", JString "R1")] (JNumber 7))
    as (details & Hresp & Hne & _); [reflexivity | discriminate |].
  exists details. split; assumption.
Defined.

End VerifyProofs.

(** ** UN/LOCODE search *)

Module SearchProofs.
Import Unlocodes.

Lemma prefix_includes (s q : string) :
  startsWith s q = true -> includes s q = true.
Proof.
  unfold startsWith. destruct s as [|ch s]; cbn [includes]; intros ->; reflexivity.
Qed.

(** *** The stable sort by a key, largest first *)

Section ByKey.

Context {A : Type} (key : A -> Z).

Let by_key : A -> A -> Z := fun a b => key b - key a.

Lemma insert_sorted_perm (x : A) (l : list A) :
  Permutation (insert_sorted by_key x l) (x :: l).
Proof.
  induction l as [|y l IH]; cbn [insert_sorted]; [reflexivity|].
  destruct (by_key y x <? 0)%Z; [|reflexivity].
  rewrite IH. apply perm_swap.
Qed.

Lemma Array_sort_by_perm (l : list A) : Permutation (Array_sort_by by_key l) l.
Proof.
  induction l as [|x l IH]; [reflexivity|].
  cbn [Array_sort_by fold_right]. fold (Array_sort_by by_key l).
  rewrite insert_sorted_perm. now constructor.
Qed.

Lemma insert_sorted_sorted (x : A) (l : list A) :
  StronglySorted (fun a b => key b <= key a) l ->
  StronglySorted (fun a b => key b <= key a) (insert_sorted by_key x l).
Proof.
  induction 1 as [|y l Hl IH Hy]; cbn [insert_sorted].
  - repeat constructor.
  - unfold by_key at 1.
    destruct (Z.ltb_spec (key x - key y) 0) as [Hlt|Hge].
    + constructor; [exact IH|].
      eapply Permutation_Forall; [symmetry; apply insert_sorted_perm|].
      constructor; [lia | exact Hy].
    + constructor; [now constructor|].
      constructor; [lia|].
      eapply List.Forall_impl; [|exact Hy]. cbn. intros z Hz. lia.
Qed.

Lemma Array_sort_by_sorted (l : list A) :
  StronglySorted (fun a b => key b <= key a) (Array_sort_by by_key l).
Proof.
  induction l as [|x l IH]; [constructor|].
  cbn [Array_sort_by fold_right]. now apply insert_sorted_sorted.
Qed.

Lemma insert_sorted_stable (k : Z) (x : A) (l : list A) :
  List.filter (fun a => (key a =? k)%Z) (insert_sorted by_key x l)
  = List.filter (fun a => (key a =? k)%Z) (x :: l).
Proof.
  induction l as [|y l IH]; cbn [insert_sorted]; [reflexivity|].
  unfold by_key at 1.
  destruct (Z.ltb_spec (key x - key y) 0) as [Hlt|Hge]; [|reflexivity].
  cbn [List.filter] in *. rewrite IH.
  destruct (Z.eqb_spec (key y) k) as [Hy|Hy];
    destruct (Z.eqb_spec (key x) k) as [Hx|Hx]; try reflexivity.
  lia.
Qed.

Lemma Array_sort_by_stable (k : Z) (l : list A) :
  List.filter (fun a => (key a =? k)%Z) (Array_sort_by by_key l)
  = List.filter (fun a => (key a =? k)%Z) l.
Proof.
  induction l as [|x l IH]; [reflexivity|].
  cbn [Array_sort_by fold_right]. fold (Array_sort_by by_key l).
  rewrite insert_sorted_stable. cbn [List.filter]. now rewrite IH.
Qed.

End ByKey.

Section Search.

Variable toLowerCase : string -> string.

Ltac rank_cases e q :=
  unfold rankEntry, matches;
  pose proof (prefix_includes (lowered toLowerCase (column1 e)) q);
  pose proof (prefix_includes (lowered toLowerCase (column2 e)) q);
  pose proof (prefix_includes (lowered toLowerCase (column3 e)) q);
  destruct (startsWith (lowered toLowerCase (column1 e)) q);
  destruct (startsWith (lowered toLowerCase (column2 e)) q);
  destruct (startsWith (lowered toLowerCase (column3 e)) q);
  destruct (includes (lowered toLowerCase (column1 e)) q);
  destruct (includes (lowered toLowerCase (column2 e)) q);
  destruct (includes (lowered toLowerCase (column3 e)) q);
  cbn [orb].

(** X13.  Rank and filter agree.  The rank of an entry lies between 0
    and 12, and it is at least 1 exactly for the entries that the
    filter of the search keeps: no result has rank 0, and no entry of
    positive rank is left out. *)
Theorem ranked_iff_matched (e : Entry) (lowerQuery : string) :
  0 <= rankEntry toLowerCase e lowerQuery <= 12
  /\ (matches toLowerCase lowerQuery e = true
      <-> 1 <= rankEntry toLowerCase e lowerQuery).
Proof.
  rank_cases e lowerQuery;
    try (split; [lia | split; [intros _; lia | reflexivity]]);
    try (split; [lia | split; [discriminate | lia]]);
    exfalso; auto using Bool.diff_false_true.
Qed.

Lemma search_results (data : list Entry) (query : string) :
  query <> "" ->
  search_unlocodes toLowerCase data (Some query)
  = Some (Array_sort_by
            (fun a b => rankEntry toLowerCase b (toLowerCase query)
                        - rankEntry toLowerCase a (toLowerCase query))
            (List.filter (matches toLowerCase (toLowerCase query)) data)).
Proof.
  intros Hq. unfold search_unlocodes.
  destruct (String.eqb_spec query ""); [contradiction | reflexivity].
Qed.

(** X14.  The result of a search.  For a non-empty query the search
    answers with a list that holds exactly the entries of the data that
    match, each as often as the data has it, arranged by rank from
    high to low. *)
Theorem search_lists_matches_by_rank (data : list Entry) (query : string) :
  query <> "" ->
  exists results,
    search_unlocodes toLowerCase data (Some query) = Some results
    /\ Permutation results
         (List.filter (matches toLowerCase (toLowerCase query)) data)
    /\ StronglySorted
         (fun a b => rankEntry toLowerCase b (toLowerCase query)
                     <= rankEntry toLowerCase a (toLowerCase query))
         results.
Proof.
  intros Hq. rewrite (search_results data query Hq). eexists.
  split; [reflexivity|]. split.
  - apply (Array_sort_by_perm (fun e => rankEntry toLowerCase e (toLowerCase query))).
  - apply (Array_sort_by_sorted (fun e => rankEntry toLowerCase e (toLowerCase query))).
Qed.

(** X15.  Equal ranks keep the order of the data file: for every rank,
    the results of that rank are the matching entries of that rank in
    the order in which the data lists them. *)
Theorem equal_rank_keeps_file_order (data : list Entry) (query : string)
    (results : list Entry) (k : Z) :
  search_unlocodes toLowerCase data (Some query) = Some results ->
  List.filter (fun e => (rankEntry toLowerCase e (toLowerCase query) =? k)%Z) results
  = List.filter (fun e => (rankEntry toLowerCase e (toLowerCase query) =? k)%Z)
      (List.filter (matches toLowerCase (toLowerCase query)) data).
Proof.
  unfold search_unlocodes.
  destruct (String.eqb query ""); [discriminate|].
  intros [= <-].
  apply (Array_sort_by_stable (fun e => rankEntry toLowerCase e (toLowerCase query))).
Qed.

(** X16.  A code that starts with the query comes first.  In the
    results, an entry whose first or second column starts with the
    query never stands behind an entry that matches by inclusion only,
    in no column by its start. *)
Theorem code_prefix_precedes_inclusion (data : list Entry) (query : string)
    (before after : list Entry) (e1 e2 : Entry) :
  search_unlocodes toLowerCase data (Some query) = Some (before ++ e2 :: after) ->
  startsWith (lowered toLowerCase (column1 e1)) (toLowerCase query) = true
  \/ startsWith (lowered toLowerCase (column2 e1)) (toLowerCase query) = true ->
  startsWith (lowered toLowerCase (column1 e2)) (toLowerCase query) = false ->
  startsWith (lowered toLowerCase (column2 e2)) (toLowerCase query) = false ->
  startsWith (lowered toLowerCase (column3 e2)) (toLowerCase query) = false ->
  ~ In e1 after.
Proof.
  intros Hres H1 H21 H22 H23 Hin.
  assert (StronglySorted
            (fun a b => rankEntry toLowerCase b (toLowerCase query)
                        <= rankEntry toLowerCase a (toLowerCase query))
            (before ++ e2 :: after)) as Hsorted.
  { unfold search_unlocodes in Hres.
    destruct (String.eqb query ""); [discriminate|].
    injection Hres as <-.
    apply (Array_sort_by_sorted
             (fun e => rankEntry toLowerCase e (toLowerCase query))). }
  apply StronglySorted_app_1_r in Hsorted.
  apply StronglySorted_inv in Hsorted. destruct Hsorted as [_ Hall].
  rewrite List.Forall_forall in Hall. specialize (Hall e1 Hin). cbn in Hall.
  assert (4 <= rankEntry toLowerCase e1 (toLowerCase query)) as Hhigh.
  { revert H1. rank_cases e1 (toLowerCase query); intros [?|?];
      try discriminate; lia. }
  assert (rankEntry toLowerCase e2 (toLowerCase query) <= 3) as Hlow.
  { revert H21 H22 H23. rank_cases e2 (toLowerCase query); intros; 
      try discriminate; lia. }
  lia.
Qed.

End Search.

(** Some entries, and a search with the ASCII case mapping. *)
Example search_example :
  search_unlocodes ascii_lower
    [ mkEntry (Some "DE") (Some "HAM") (Some "Hamburg");
      mkEntry (Some "US") (Some "CHI") (Some "Chicago");
      mkEntry (Some "CH") None (Some "Zurich");
      mkEntry (Some "CN") (Some "SHA") (Some "Shanghai") ]
    (Some "ch")
  = Some [ mkEntry (Some "US") (Some "CHI") (Some "Chicago");
           mkEntry (Some "CH") None (Some "Zurich") ].
Proof. vm_compute. reflexivity. Qed.

Lemma search_lists_matches_by_rank_witness :
  "ch" <> ""
  /\ exists results,
       search_unlocodes ascii_lower
         [ mkEntry (Some "DE") (Some "HAM") (Some "Hamburg");
           mkEntry (Some "CH") None (Some "Zurich") ] (Some "ch") = Some results
       /\ Permutation results
            (List.filter (matches ascii_lower (ascii_lower "ch"))
               [ mkEntry (Some "DE") (Some "HAM") (Some "Hamburg");
                 mkEntry (Some "CH") None (Some "Zurich") ]).
Proof.
  assert ("ch" <> "") as H by discriminate.
  split; [exact H|].
  destruct (search_lists_matches_by_rank ascii_lower
              [ mkEntry (Some "DE") (Some "HAM") (Some "Hamburg");
                mkEntry (Some "CH") None (Some "Zurich") ] "ch" H)
    as (results & Hres & Hperm & _).
  exists results. auto.
Defined.

Lemma equal_rank_keeps_file_order_witness :
  List.filter (fun e => (rankEntry ascii_lower e (ascii_lower "a") =? 1)%Z)
    [ mkEntry (Some "PA") None None; mkEntry None (Some "XA") None ]
  = List.filter (fun e => (rankEntry ascii_lower e (ascii_lower "a") =? 1)%Z)
      (List.filter (matches ascii_lower (ascii_lower "a"))
         [ mkEntry (Some "PA") None None; mkEntry None (Some "XA") None ]).
Proof.
  apply (equal_rank_keeps_file_order ascii_lower
           [ mkEntry (Some "PA") None None; mkEntry None (Some "XA") None ] "a").
  vm_compute. reflexivity.
Defined.

Lemma code_prefix_precedes_inclusion_witness :
  search_unlocodes ascii_lower
    [ mkEntry (Some "AT") None (Some "Kirchberg");
      mkEntry (Some "CH") None None ] (Some "ch")
  = Some ([ mkEntry (Some "CH") None None ]
          ++ mkEntry (Some "AT") None (Some "Kirchberg") :: [])
  /\ ~ In (mkEntry (Some "CH") None None) [].
Proof.
  assert (search_unlocodes ascii_lower
            [ mkEntry (Some "AT") None (Some "Kirchberg");
              mkEntry (Some "CH") None None ] (Some "ch")
          = Some ([ mkEntry (Some "CH") None None ]
                  ++ mkEntry (Some "AT") None (Some "Kirchberg") :: [])) as H
    by (vm_compute; reflexivity).
  split; [exact H|].
  apply (code_prefix_precedes_inclusion ascii_lower _ "ch" _ _
           (mkEntry (Some "CH") None None) _ H).
  - left. vm_compute. reflexivity.
  - vm_compute. reflexivity.
  - vm_compute. reflexivity.
  - vm_compute. reflexivity.
Defined.

End SearchProofs.

(** ** Booking status on the read path *)

Module BookingProofs.
Import Js StatusCodec Bookings.

(** X17.  The list of bookings shows only the five labels.  Whatever
    the status column of a booking holds, any integer or null, the
    [Status] that the read route attaches is one of Pending, Confirmed,
    In Transit, Delivered, Cancelled; it is Pending for null and for
    every integer outside 1..5. *)
Theorem booking_status_is_a_label (status : option Z) :
  (exists l, In l labels /\ booking_Status status = VString l)
  /\ ((forall n, status = Some n -> ~ (1 <= n <= 5)) ->
      booking_Status status = VString "Pending").
Proof.
  split.
  - destruct status as [n|]; [|exists "Pending"; split; [now left | reflexivity]].
    destruct (Z_le_dec 1 n) as [H1|H1]; [destruct (Z_le_dec n 5) as [H5|H5]|].
    + assert (n = 1 \/ n = 2 \/ n = 3 \/ n = 4 \/ n = 5) as Hn by lia.
      destruct Hn as [-> | [-> | [-> | [-> | ->]]]]; eexists;
        (split; [|reflexivity]); unfold labels; cbn; tauto.
    + exists "Pending". split; [now left|].
      apply StatusCodecProofs.unknown_code_pending. lia.
    + exists "Pending". split; [now left|].
      apply StatusCodecProofs.unknown_code_pending. lia.
  - intros H. destruct status as [n|]; [|reflexivity].
    apply StatusCodecProofs.unknown_code_pending. now apply H.
Qed.

End BookingProofs.

(** ** Authentication middleware *)

Module AuthProofs.
Import Auth.

Lemma includes_In (ps : list string) (name : string) :
  includes ps name = true <-> In name ps.
Proof.
  unfold includes. rewrite existsb_exists. split.
  - intros (x & Hx & Heq). apply String.eqb_eq in Heq. now subst.
  - intros H. exists name. split; [exact H | apply String.eqb_refl].
Qed.

Lemma has_company_In (cs : list Company) (id : Z) :
  has_company cs id = true <-> In id (map companyId cs).
Proof.
  unfold has_company. rewrite existsb_exists, in_map_iff. split.
  - intros (c & Hc & Heq). apply Z.eqb_eq in Heq. eauto.
  - intros (c & Heq & Hc). exists c. split; [exact Hc | now apply Z.eqb_eq].
Qed.

(** What the loop keeps, from any starting point. *)
Lemma group_rows_from (rows : list Row) :
  forall acc,
    List.NoDup (snd acc) -> List.NoDup (map companyId (fst acc)) ->
    let res := fold_left group_row rows acc in
    List.NoDup (snd res)
    /\ List.NoDup (map companyId (fst res))
    /\ (forall name, In name (snd res) <->
          In name (snd acc) \/ exists r, In r rows /\ permission_key r = Some name)
    /\ (forall id, In id (map companyId (fst res)) <->
          In id (map companyId (fst acc))
          \/ exists r, In r rows /\ company_key r = Some id).
Proof.
  induction rows as [|r rows IH]; intros acc Hp Hc; cbv zeta; cbn [fold_left].
  - repeat split; try assumption; try tauto.
    + intros [H | (r & [] & _)]; exact H.
    + intros [H | (r & [] & _)]; exact H.
  - assert (List.NoDup (snd (group_row acc r))) as Hp'.
    { unfold group_row. cbn [snd]. destruct (permission_key r) as [name|]; [|exact Hp].
      destruct (includes (snd acc) name) eqn:E; cbn [negb]; [exact Hp|].
      apply List.NoDup_app_remove_l with (l := []). cbn [app].
      eapply Permutation.Permutation_NoDup;
        [apply Permutation.Permutation_cons_append|].
      constructor; [|exact Hp]. intros Hin. apply includes_In in Hin. congruence. }
    assert (List.NoDup (map companyId (fst (group_row acc r)))) as Hc'.
    { unfold group_row. cbn [fst]. destruct (company_key r) as [id|]; [|exact Hc].
      destruct (has_company (fst acc) id) eqn:E; cbn [negb]; [exact Hc|].
      rewrite map_app. cbn [map companyId].
      apply List.NoDup_app_remove_l with (l := []). cbn [app].
      eapply Permutation.Permutation_NoDup;
        [apply Permutation.Permutation_cons_append|].
      constructor; [|exact Hc]. intros Hin. apply has_company_In in Hin. congruence. }
    destruct (IH (group_row acc r) Hp' Hc') as (H1 & H2 & H3 & H4).
    split; [exact H1|]. split; [exact H2|]. split.
    + intros name. rewrite H3. unfold group_row at 1. cbn [snd]. split.
      * intros [Hin | (r' & Hr' & Hk)]; [|right; exists r'; split; [now right | exact Hk]].
        destruct (permission_key r) as [n|] eqn:Hk; [|now left].
        destruct (includes (snd acc) n); cbn [negb] in Hin; [now left|].
        apply in_app_or in Hin. destruct Hin as [Hin | [<- | []]]; [now left|].
        right. exists r. split; [now left | exact Hk].
      * intros [Hin | (r' & [<- | Hr'] & Hk)].
        -- left. destruct (permission_key r) as [n|]; [|exact Hin].
           destruct (includes (snd acc) n); cbn [negb]; [exact Hin|].
           apply in_or_app. now left.
        -- left. rewrite Hk.
           destruct (includes (snd acc) name) eqn:E; cbn [negb].
           ++ now apply includes_In.
           ++ apply in_or_app. right. now left.
        -- right. eauto.
    + intros id. rewrite H4. unfold group_row at 1. cbn [fst]. split.
      * intros [Hin | (r' & Hr' & Hk)]; [|right; exists r'; split; [now right | exact Hk]].
        destruct (company_key r) as [n|] eqn:Hk; [|now left].
        destruct (has_company (fst acc) n); cbn [negb] in Hin; [now left|].
        rewrite map_app in Hin. apply in_app_or in Hin.
        destruct Hin as [Hin | [<- | []]]; [now left|].
        right. exists r. split; [now left | exact Hk].
      * intros [Hin | (r' & [<- | Hr'] & Hk)].
        -- left. destruct (company_key r) as [n|]; [|exact Hin].
           destruct (has_company (fst acc) n); cbn [negb]; [exact Hin|].
           rewrite map_app. apply in_or_app. now left.
        -- left. rewrite Hk.
           destruct (has_company (fst acc) id) eqn:E; cbn [negb].
           ++ now apply has_company_In.
           ++ rewrite map_app. apply in_or_app. right. now left.
        -- right. eauto.
Qed.

(** X18.  The user object lists each thing once.  From any rows, the
    permissions of the user are pairwise distinct and are exactly the
    non-empty permission names that occur in the rows; the companies
    have pairwise distinct ids, which are exactly the non-zero company
    ids that occur in the rows. *)
Theorem user_lists_are_sets_of_rows (rows : list Row) :
  List.NoDup (snd (group_rows rows))
  /\ List.NoDup (map companyId (fst (group_rows rows)))
  /\ (forall name, In name (snd (group_rows rows)) <->
        exists r, In r rows /\ permission_key r = Some name)
  /\ (forall id, In id (map companyId (fst (group_rows rows))) <->
        exists r, In r rows /\ company_key r = Some id).
Proof.
  destruct (group_rows_from rows ([], [])) as (H1 & H2 & H3 & H4);
    [constructor | constructor |].
  split; [exact H1|]. split; [exact H2|]. split.
  - intros name. unfold group_rows. rewrite H3. cbn [snd In]. tauto.
  - intros id. unfold group_rows. rewrite H4. cbn [fst map In]. tauto.
Qed.

(** X19.  Permissions are checked against all companies at once.  A
    request of an authenticated user passes [requirePermission(p)]
    exactly when some row of the user, for whatever company, names the
    permission [p]; in particular the empty permission is never
    granted. *)
Theorem permission_granted_iff_some_row (rows : list Row) (p : string) :
  (requirePermission p (Some (snd (group_rows rows))) = next
   <-> exists r, In r rows /\ permissionname r = Some p /\ p <> "")
  /\ (requirePermission p (Some (snd (group_rows rows))) <> next ->
      requirePermission p (Some (snd (group_rows rows)))
      = deny 403 "Insufficient permissions").
Proof.
  pose proof (proj1 (proj2 (proj2 (group_rows_from rows ([], [])
                (List.NoDup_nil _) (List.NoDup_nil _)))) p) as Hin.
  cbv zeta in Hin. fold (group_rows rows) in Hin. cbn [snd In] in Hin.
  unfold requirePermission.
  destruct (includes (snd (group_rows rows)) p) eqn:E; cbn [negb].
  - split; [|intros H; now destruct H]. split; [|reflexivity]. intros _.
    apply includes_In in E. apply Hin in E. destruct E as [[] | (r & Hr & Hk)].
    exists r. split; [exact Hr|]. unfold permission_key in Hk.
    destruct (permissionname r) as [[|ch s]|]; try discriminate Hk.
    injection Hk as <-. split; [reflexivity | discriminate].
  - split; [|reflexivity]. split; [discriminate|].
    intros (r & Hr & Hname & Hne). exfalso.
    assert (In p (snd (group_rows rows))) as Hp.
    { apply Hin. right. exists r. split; [exact Hr|].
      unfold permission_key. rewrite Hname. destruct p; [contradiction | reflexivity]. }
    apply includes_In in Hp. congruence.
Qed.

Lemma append_cons (ch : ascii) (s t : string) :
  String ch s +:+ t = String ch (s +:+ t).
Proof. reflexivity. Qed.

Lemma append_empty (s : string) : s +:+ "" = s.
Proof.
  induction s as [|c s IH]; [reflexivity|].
  now rewrite append_cons, IH.
Qed.

Lemma append_char (p w : string) (ch : ascii) :
  (p +:+ String ch EmptyString) +:+ w = p +:+ String ch w.
Proof.
  induction p as [|c p IH]; [reflexivity|].
  now rewrite !append_cons, IH.
Qed.

Lemma split_spaces_no_space (w piece : string) :
  (forall ch, In ch (list_ascii_of_string w) -> ch <> " "%char) ->
  forall rest, split_spaces (w +:+ String " " rest) piece
               = (piece +:+ w) :: split_spaces rest "".
Proof.
  revert piece. induction w as [|ch w IH]; intros piece Hw rest.
  - change ("" +:+ String " " rest) with (String " " rest).
    cbn [split_spaces]. rewrite Ascii.eqb_refl. now rewrite append_empty.
  - rewrite append_cons. cbn [split_spaces].
    destruct (Ascii.eqb_spec ch " ") as [->|_].
    + exfalso. apply (Hw " "%char); [now left | reflexivity].
    + rewrite IH by (intros c Hc; apply Hw; now right).
      now rewrite append_char.
Qed.

(** X20.  The scheme of the Authorization header is not looked at.  For
    any two first words without a space, however they read, the same
    rest of the header yields the same token: [Bearer t], [Basic t] and
    [x t] are one to the middleware. *)
Theorem header_scheme_ignored (w1 w2 rest : string) :
  (forall ch, In ch (list_ascii_of_string w1) -> ch <> " "%char) ->
  (forall ch, In ch (list_ascii_of_string w2) -> ch <> " "%char) ->
  w1 <> "" -> w2 <> "" ->
  bearer_token (Some (w1 +:+ String " " rest))
  = bearer_token (Some (w2 +:+ String " " rest)).
Proof.
  intros H1 H2 N1 N2. unfold bearer_token.
  assert (forall w, w <> "" -> String.eqb (w +:+ String " " rest) "" = false) as Hne.
  { intros w Hw. destruct w; [contradiction|]. now rewrite append_cons. }
  rewrite (Hne w1 N1), (Hne w2 N2).
  rewrite (split_spaces_no_space w1 "" H1), (split_spaces_no_space w2 "" H2).
  reflexivity.
Qed.

Lemma header_scheme_ignored_witness :
  bearer_token (Some ("Bearer" +:+ String " " "abc.def"))
  = bearer_token (Some ("Basic" +:+ String " " "abc.def")).
Proof.
  apply (header_scheme_ignored "Bearer" "Basic" "abc.def").
  - intros ch H. cbn in H.
    repeat (destruct H as [<- | H]; [discriminate|]). destruct H.
  - intros ch H. cbn in H.
    repeat (destruct H as [<- | H]; [discriminate|]). destruct H.
  - discriminate.
  - discriminate.
Defined.

Example bearer_examples :
  bearer_token (Some "Bearer abc.def") = Some "abc.def"
  /\ bearer_token (Some "abc.def") = None
  /\ bearer_token (Some "Bearer  abc.def") = None
  /\ bearer_token (Some "Bearer abc.def extra") = Some "abc.def"
  /\ bearer_token None = None.
Proof. repeat split. Qed.

End AuthProofs.

(** ** The chain from end to end *)

Module ChainProofs.
Import Milestones MilestoneSpec Overrides Chain.

(** *** The audit trail *)

Lemma handle_communications (a : Action) (req : Body) (c : Ctx) (db : Database) :
  exists added,
    communications (tables (fst (handle a req c db)))
    = communications (tables db) ++ added
    /\ milestone_updates added /\ (length added <= 1)%nat.
Proof.
  destruct (handle a req c db) as [db' r] eqn:H. cbn [fst].
  destruct (MilestoneProofs.handle_outcome _ _ _ _ _ _ H)
    as [[Hsame _] | (o & u & _ & _ & _ & _ & (_ & _ & _ & Hcom) & _)].
  - exists []. rewrite Hsame, app_nil_r. repeat split; [intros m [] | cbn; lia].
  - destruct Hcom as (m & Hm & _ & _ & Hty). exists [m].
    repeat split; [exact Hm | | cbn; lia].
    intros m' [<- | []]. exact Hty.
Qed.

(** X21.  The audit trail is append-only.  After any sequence of
    guarded milestone requests and overrides, with any failures, the
    communications table is the old table followed by new rows, all of
    type 'milestone_update': no modelled route rewrites or removes a
    communication. *)
Theorem communications_append_only (rs : list Request) (db : Database) :
  exists added,
    communications (tables (serve_requests rs db))
    = communications (tables db) ++ added
    /\ milestone_updates added.
Proof.
  unfold serve_requests. revert db.
  induction rs as [|r rs IH]; intros db; cbn [fold_left].
  - exists []. rewrite app_nil_r. split; [reflexivity | intros m []].
  - destruct (IH (serve_request db r)) as (added & Heq & Hall).
    assert (exists first,
              communications (tables (serve_request db r))
              = communications (tables db) ++ first
              /\ milestone_updates first) as (first & Hfirst & Hf).
    { destruct r as [k | i status c | mid status u c]; cbn [serve_request].
      - unfold serve.
        destruct (handle_communications (action k) (body k) (ctx k) db)
          as (x & Hx & Hxs & _). eauto.
      - exists []. rewrite app_nil_r. split; [|intros m []].
        destruct (OverrideProofs.stock_override_tables i status c db)
          as [-> | [_ ->]]; reflexivity.
      - exists []. rewrite app_nil_r. split; [|intros m []].
        destruct (OverrideProofs.put_milestone_cases mid status u c db)
          as [-> | (st & d & _ & ->)]; reflexivity. }
    exists (first ++ added). rewrite Heq, Hfirst, app_assoc.
    split; [reflexivity|].
    intros m Hm. apply in_app_or in Hm. destruct Hm; [now apply Hf | now apply Hall].
Qed.

(** *** Walking the chain *)

Lemma cascade_orders_ids (a : Action) (o' : Z) (l : list Order) :
  map order_orderid (cascade_orders a o' l) = map order_orderid l.
Proof.
  unfold cascade_orders. destruct (order_status_of a) as [st|]; [|reflexivity].
  rewrite map_map. apply map_ext. intros r.
  destruct (Z.eqb_spec (order_orderid r) o') as [->|_]; reflexivity.
Qed.

Lemma order_exists_after (a : Action) (req : Body) (c : Ctx) (db : Database) (o : Z) :
  order_exists (tables (fst (handle a req c db))) o = order_exists (tables db) o.
Proof.
  assert (forall l, existsb (fun r => (order_orderid r =? o)%Z) l
                    = existsb (fun x => (x =? o)%Z) (map order_orderid l)) as Hmap.
  { induction l as [|r l IH]; [reflexivity|]. cbn [map existsb]. now rewrite IH. }
  destruct (handle a req c db) as [db' r] eqn:H. cbn [fst].
  destruct (MilestoneProofs.handle_outcome _ _ _ _ _ _ H)
    as [[Hsame _] | (o' & u & _ & _ & _ & _ & (Hord & _) & _)].
  - now rewrite Hsame.
  - unfold order_exists. now rewrite !Hmap, Hord, cascade_orders_ids.
Qed.

Lemma completed_kept (a b : Action) (req : Body) (c : Ctx) (db : Database) (o : Z) :
  is_completed (tables db) o b = true ->
  is_completed (tables (fst (handle a req c db))) o b = true.
Proof.
  intros Hb.
  destruct (handle a req c db) as [db' r] eqn:H. cbn [fst].
  destruct (MilestoneProofs.handle_outcome _ _ _ _ _ _ H)
    as [[Hsame _] | (o' & u & _ & _ & _ & _ & (_ & _ & (m & Hm & _) & _) & _)].
  - now rewrite Hsame.
  - rewrite (MilestoneProofs.is_completed_app _ _ o b m Hm), Hb. reflexivity.
Qed.

Lemma success_completes (a : Action) (o u : Z) (c : Ctx) (db : Database) :
  MilestoneSpec.is_success (snd (handle a (mkBody (Some o) (Some u)) c db)) ->
  is_completed (tables (fst (handle a (mkBody (Some o) (Some u)) c db))) o a = true
  /\ (forall st, invoice_status_of a = Some st ->
        forall i, In i (poinvoice (tables (fst (handle a (mkBody (Some o) (Some u)) c db)))) ->
          invoice_orderid i = o -> expectedstockstatus i = st)
  /\ (forall st, order_status_of a = Some st ->
        forall r, In r (orders (tables (fst (handle a (mkBody (Some o) (Some u)) c db)))) ->
          order_orderid r = o -> orderstatus r = st).
Proof.
  intros Hok.
  destruct (handle a (mkBody (Some o) (Some u)) c db) as [db' r] eqn:H.
  cbn [fst snd] in *.
  destruct (MilestoneProofs.handle_outcome _ _ _ _ _ _ H)
    as [[_ Hno] | (o' & u' & Ho & _ & _ & _ & (Hord & Hinv & Hms & _) & _)];
    [contradiction|].
  cbn [orderid] in Ho. injection Ho as <-.
  destruct Hms as (m & Hm & Hmo & Hty & Hst & _).
  split; [|split].
  - rewrite (MilestoneProofs.is_completed_app _ _ o a m Hm).
    apply orb_true_iff. right. apply MilestoneProofs.completed_row_spec. tauto.
  - intros st Hs i Hi Hio. rewrite Hinv in Hi.
    pose proof (MilestoneProofs.cascade_invoices_rows a st o (now c) _ i Hs Hi) as Hrow.
    rewrite Hio, Z.eqb_refl in Hrow. exact Hrow.
  - intros st Hs r0 Hr Hro. rewrite Hord in Hr.
    pose proof (MilestoneProofs.cascade_orders_rows a st o _ r0 Hs Hr) as Hrow.
    rewrite Hro, Z.eqb_refl in Hrow. exact Hrow.
Qed.

#[local] Arguments count_milestones : simpl never.
#[local] Arguments order_exists : simpl never.
#[local] Arguments Z.eqb : simpl never.
#[local] Arguments Z.gtb : simpl never.
#[local] Arguments Z.add : simpl never.
#[local] Arguments int4 : simpl never.

(** The head of the chain is accepted for an existing order that has
    no confirmation row, when the ids are INT values other than zero
    and nothing fails. *)
Lemma confirmation_accepted (o u : Z) (c : Ctx) (db : Database) :
  o <> 0 -> u <> 0 -> int4 o = true -> int4 u = true ->
  order_exists (tables db) o = true ->
  rows_of (tables db) o ConfirmOrder = [] ->
  fault_free c ->
  MilestoneSpec.is_success (snd (handle ConfirmOrder (mkBody (Some o) (Some u)) c db)).
Proof.
  intros Ho Hu Ho4 Hu4 Hex Hnone Hff.
  destruct (handle ConfirmOrder (mkBody (Some o) (Some u)) c db) as [db' r] eqn:H.
  cbn [snd]. cbn [handle] in H. unfold confirm_order in H.
  cbn [orderid userid missing] in H.
  apply Z.eqb_neq in Ho, Hu. rewrite Ho, Hu in H. cbn [orb] in H.
  apply (MilestoneProofs.no_rows_iff (tables db) o ConfirmOrder) in Hnone.
  cbn [milestone_type] in Hnone.
  MilestoneProofs.run_handler H;
    try MilestoneProofs.no_fault Hff;
    try discriminate Ho4; try discriminate Hu4;
    try (injection H as _ <-; do 2 eexists; reflexivity);
    first
      [ congruence
      | match goal with
        | G : order_exists _ _ = false, K : order_exists (tables db) o = true |- _ =>
            unfold with_orders, with_poinvoice, with_milestones,
              with_communications in G;
            cbn [orders poinvoice milestones communications] in G;
            rewrite ?MilestoneProofs.order_exists_status in G;
            unfold order_exists in G, K; cbn [orders] in G;
            rewrite K in G; discriminate G
        end ].
Qed.

Lemma undisturbed_fault_free (t : Z) : fault_free (mkCtx t (fun _ => false)).
Proof. intros n. reflexivity. Qed.

(** One more step of the walk: with the predecessor completed and the
    order in place, the action succeeds, is completed afterwards, and
    the order is still in place. *)
Lemma walk_step (a p : Action) (o u t : Z) (db : Database) :
  predecessor a = Some p ->
  int4 o = true -> int4 u = true ->
  order_exists (tables db) o = true ->
  is_completed (tables db) o p = true ->
  let res := handle a (mkBody (Some o) (Some u)) (mkCtx t (fun _ => false)) db in
  MilestoneSpec.is_success (snd res)
  /\ order_exists (tables (fst res)) o = true
  /\ is_completed (tables (fst res)) o a = true.
Proof.
  intros Hp Ho4 Hu4 Hex Hdone. cbv zeta.
  destruct (MilestoneProofs.later_action_accepted a p o u
              (mkCtx t (fun _ => false)) db Hp Ho4 Hu4 Hex Hdone
              (undisturbed_fault_free t)) as [Hok _].
  split; [exact Hok|]. split.
  - now rewrite order_exists_after.
  - apply (success_completes a o u _ db Hok).
Qed.

(** X22.  The chain can be walked to its end.  For any store, an order
    that exists and has no milestone rows, and an order id and a user
    id that are INT values other than 0: when the five actions are
    requested in chain order and no statement fails, all five are
    completed afterwards and nothing else is, every invoice of the
    order has the status 'completed', and the order has the status
    'Completed'. *)
Theorem chain_can_be_walked (o u : Z) (times : Action -> Z) (db : Database) :
  o <> 0 -> u <> 0 -> int4 o = true -> int4 u = true ->
  order_exists (tables db) o = true ->
  (forall m, In m (milestones (tables db)) -> milestone_orderid m <> o) ->
  let db' := serve_all (walk o u times) db in
  completed_prefix (tables db') o 5
  /\ (forall i, In i (poinvoice (tables db')) -> invoice_orderid i = o ->
        expectedstockstatus i = "completed")
  /\ (forall r, In r (orders (tables db')) -> order_orderid r = o ->
        orderstatus r = "Completed").
Proof.
  intros Ho Hu Ho4 Hu4 Hex Hnone. cbv zeta.
  assert (rows_of (tables db) o ConfirmOrder = []) as Hrows.
  { unfold rows_of. induction (milestones (tables db)) as [|m l IH]; [reflexivity|].
    cbn [List.filter]. unfold row_of at 1.
    destruct (Z.eqb_spec o (milestone_orderid m)) as [Heq|_].
    - exfalso. apply (Hnone m); [now left | now symmetry].
    - cbn [andb]. apply IH. intros m' Hm'. apply Hnone. now right. }
  destruct (MilestoneProofs.completed_types_form_prefix (walk o u times) db o Hnone)
    as (n & Hn & Hprefix).
  set (body := mkBody (Some o) (Some u)) in *.
  set (db1 := fst (handle ConfirmOrder body
                     (mkCtx (times ConfirmOrder) (fun _ => false)) db)).
  set (db2 := fst (handle ReadyToShip body
                     (mkCtx (times ReadyToShip) (fun _ => false)) db1)).
  set (db3 := fst (handle GoodsShipped body
                     (mkCtx (times GoodsShipped) (fun _ => false)) db2)).
  set (db4 := fst (handle GoodsArrived body
                     (mkCtx (times GoodsArrived) (fun _ => false)) db3)).
  assert (serve_all (walk o u times) db
          = fst (handle GoodsReceived body
                   (mkCtx (times GoodsReceived) (fun _ => false)) db4)) as Hwalk
    by reflexivity.
  rewrite Hwalk in Hprefix |- *. clear Hwalk.
  assert (order_exists (tables db1) o = true
          /\ is_completed (tables db1) o ConfirmOrder = true) as [Hex1 Hc1].
  { pose proof (confirmation_accepted o u (mkCtx (times ConfirmOrder) (fun _ => false))
                  db Ho Hu Ho4 Hu4 Hex Hrows (undisturbed_fault_free _)) as Hok.
    split.
    - subst db1 body. now rewrite order_exists_after.
    - apply (success_completes ConfirmOrder o u _ db Hok). }
  destruct (walk_step ReadyToShip ConfirmOrder o u (times ReadyToShip) db1
              eq_refl Ho4 Hu4 Hex1 Hc1) as (_ & Hex2 & Hc2). fold db2 in Hex2, Hc2.
  destruct (walk_step GoodsShipped ReadyToShip o u (times GoodsShipped) db2
              eq_refl Ho4 Hu4 Hex2 Hc2) as (_ & Hex3 & Hc3). fold db3 in Hex3, Hc3.
  destruct (walk_step GoodsArrived GoodsShipped o u (times GoodsArrived) db3
              eq_refl Ho4 Hu4 Hex3 Hc3) as (_ & Hex4 & Hc4). fold db4 in Hex4, Hc4.
  destruct (walk_step GoodsReceived GoodsArrived o u (times GoodsReceived) db4
              eq_refl Ho4 Hu4 Hex4 Hc4) as (Hok5 & _ & Hc5).
  destruct (success_completes GoodsReceived o u _ db4 Hok5) as (_ & Hinv & Hord).
  split; [|split].
  - assert (n = 5%nat) as ->; [|exact Hprefix].
    unfold is_completed in Hc5. apply Hprefix in Hc5.
    do 5 (destruct n as [|n]; [cbn in Hc5;
            repeat (destruct Hc5 as [Hc5|Hc5]; [discriminate Hc5|]); destruct Hc5|]).
    destruct n; [reflexivity | lia].
  - exact (Hinv "completed" eq_refl).
  - exact (Hord "Completed" eq_refl).
Qed.

Lemma chain_can_be_walked_witness :
  42 <> 0 /\ 7 <> 0 /\ int4 42 = true /\ int4 7 = true
  /\ order_exists (tables ScenarioA.store) 42 = true
  /\ completed_prefix
       (tables (serve_all (walk 42 7 (fun _ => 1000)) ScenarioA.store)) 42 5.
Proof.
  assert (42 <> 0) as H1 by discriminate.
  assert (7 <> 0) as H2 by discriminate.
  assert (order_exists (tables ScenarioA.store) 42 = true) as H3 by reflexivity.
  split; [exact H1|]. split; [exact H2|].
  split; [reflexivity|]. split; [reflexivity|]. split; [exact H3|].
  apply (chain_can_be_walked 42 7 (fun _ => 1000) ScenarioA.store H1 H2
           eq_refl eq_refl H3).
  intros m [].
Defined.

(** With a user id that the INT column cannot hold, no step of the walk
    is recorded. *)
Example walk_out_of_range :
  tables (serve_all (walk 42 2147483648 (fun _ => 1000)) ScenarioA.store)
  = tables ScenarioA.store.
Proof. vm_compute. reflexivity. Qed.

(** *** The milestone invariants under all routes *)

(** X23.  The prefix property and the routes that keep it.  For an
    order that starts without milestone rows, after any sequence of
    guarded milestone requests and invoice status overrides, with any
    arguments and failures, the completed milestone types of the order
    are exactly the first n of the chain, for some n up to 5.  (The
    milestone status override is the one modelled route that can break
    this.) *)
Theorem prefix_kept_without_milestone_override (rs : list Request) (db : Database)
    (o : Z) :
  forallb keeps_milestone_status rs = true ->
  (forall m, In m (milestones (tables db)) -> milestone_orderid m <> o) ->
  exists n, (n <= 5)%nat /\ completed_prefix (tables (serve_requests rs db)) o n.
Proof.
  intros Hrs Hnone. apply MilestoneProofs.chain_closed_prefix.
  assert (chain_closed (tables db) o) as Hinit
    by (apply MilestoneProofs.chain_closed_init, Hnone).
  clear Hnone. unfold serve_requests. revert db Hinit.
  induction rs as [|r rs IH]; intros db Hinit; [exact Hinit|].
  cbn [forallb] in Hrs. apply andb_true_iff in Hrs. destruct Hrs as [Hr Hrs].
  cbn [fold_left]. apply (IH Hrs).
  destruct r as [k | i status c | mid status u c]; cbn [serve_request];
    [| |discriminate Hr].
  - apply MilestoneProofs.chain_closed_serve, Hinit.
  - apply (MilestoneProofs.chain_closed_same (tables db)); [|exact Hinit].
    destruct (OverrideProofs.stock_override_tables i status c db)
      as [-> | [_ ->]]; reflexivity.
Qed.

Lemma prefix_kept_without_milestone_override_witness :
  exists n, (n <= 5)%nat
    /\ completed_prefix
         (tables (serve_requests
            [ Guarded (ScenarioA.call ConfirmOrder 1000);
              StockOverride 1 (Js.VString "arrived") (ScenarioA.undisturbed 1500);
              Guarded (ScenarioA.call GoodsShipped 2000);
              Guarded (ScenarioA.call ReadyToShip 3000) ] ScenarioA.store)) 42 n.
Proof.
  apply (prefix_kept_without_milestone_override _ ScenarioA.store 42).
  - reflexivity.
  - intros m [].
Defined.

(** The override can break it: a completed confirmation that is
    re-opened leaves ready-to-ship completed without its predecessor. *)
Example override_breaks_prefix :
  let db := serve_requests
    [ Guarded (ScenarioA.call ConfirmOrder 1000);
      Guarded (ScenarioA.call ReadyToShip 2000);
      MilestoneOverride 1 (Some "pending") None (ScenarioA.undisturbed 3000) ]
    ScenarioA.store in
  is_completed (tables db) 42 ConfirmOrder = false
  /\ is_completed (tables db) 42 ReadyToShip = true.
Proof. vm_compute. split; reflexivity. Qed.

Lemma filter_map_length {A : Type} (p : A -> bool) (f : A -> A) (l : list A) :
  (forall x, p (f x) = p x) ->
  length (List.filter p (map f l)) = length (List.filter p l).
Proof.
  intros Hp. induction l as [|x l IH]; [reflexivity|].
  cbn [map List.filter]. rewrite Hp. destruct (p x); cbn [length]; now rewrite IH.
Qed.

(** X24.  One confirmation per order, under all routes.  If an order
    has at most one row of type order_confirmed, then so it has after
    any sequence of guarded milestone requests and overrides: the
    confirmation handler refuses a second row, and no other route adds
    one or changes the type or the order of a row. *)
Theorem one_confirmation_per_order (rs : list Request) (db : Database) (o : Z) :
  (length (rows_of (tables db) o ConfirmOrder) <= 1)%nat ->
  (length (rows_of (tables (serve_requests rs db)) o ConfirmOrder) <= 1)%nat.
Proof.
  apply (OverrideProofs.serve_requests_invariant
           (fun d => (length (rows_of (tables d) o ConfirmOrder) <= 1)%nat)).
  clear rs db. intros db [k | i status c | mid status u c] Hlen; cbn [serve_request].
  - apply (MilestoneProofs.confirmation_recorded_once [k] db o Hlen).
  - destruct (OverrideProofs.stock_override_tables i status c db)
      as [-> | [_ ->]]; exact Hlen.
  - destruct (OverrideProofs.put_milestone_cases mid status u c db)
      as [-> | (st & d & _ & ->)]; [exact Hlen|].
    unfold rows_of in *. cbn [tables with_milestones milestones].
    rewrite filter_map_length; [exact Hlen|].
    intros m. unfold row_of, set_milestone_status.
    now destruct (mid =? milestoneid m)%Z.
Qed.

Lemma one_confirmation_per_order_witness :
  (length (rows_of (tables ScenarioA.store) 42 ConfirmOrder) <= 1)%nat
  /\ (length (rows_of (tables (serve_requests
        [ Guarded (ScenarioA.call ConfirmOrder 1000);
          MilestoneOverride 1 (Some "pending") None (ScenarioA.undisturbed 1500);
          Guarded (ScenarioA.call ConfirmOrder 2000) ] ScenarioA.store))
        42 ConfirmOrder) <= 1)%nat.
Proof.
  assert (length (rows_of (tables ScenarioA.store) 42 ConfirmOrder) <= 1)%nat as H
    by (cbn; lia).
  split; [exact H|].
  exact (one_confirmation_per_order _ ScenarioA.store 42 H).
Defined.

End ChainProofs.

(** ** More on the seal and the codec *)

Module SealProofs.
Import Json Attestation.

Lemma property_list_subset (l seen : list string) (k : string) :
  In k (property_list l seen) -> In k l.
Proof.
  revert seen. induction l as [|x l IH]; intros seen; cbn [property_list]; [tauto|].
  destruct (existsb (String.eqb x) seen).
  - intros H. right. eapply IH, H.
  - intros [<- | H]; [now left | right; eapply IH, H].
Qed.

Lemma replacer_keys (o : Obj) (k : string) :
  In k (property_list (Array_sort (Object_keys o)) []) -> In k (map fst o).
Proof.
  intros H. apply property_list_subset in H. unfold Array_sort in H.
  exact (Permutation_in _ (merge_sort_Permutation code_unit_le _) H).
Qed.

Lemma delete_property_app (k : string) (o o' : Obj) :
  delete_property k (o ++ o') = delete_property k o ++ delete_property k o'.
Proof. unfold delete_property. apply List.filter_app. Qed.

Lemma delete_property_single (k k0 : string) (v : JSON) :
  delete_property k [(k0, v)]
  = if negb (String.eqb k0 k) then [(k0, v)] else [].
Proof. reflexivity. Qed.

(** X25.  A nested field whose key does not occur at the top level is
    not sealed.  For every payload, every top-level field that holds an
    object, and every key that is neither a top-level key nor the key
    of that field: adding a field with this key to the nested object,
    with whatever value, leaves the canonical string and the seal as
    they are. *)
Theorem nested_field_unsealed (env : Env) (p : Obj) (k0 : string) (ps : Obj)
    (k : string) (x : JSON) :
  ~ In k (map fst p) -> k <> k0 ->
  dataString (p ++ [(k0, JObject (ps ++ [(k, x)]))])
  = dataString (p ++ [(k0, JObject ps)])
  /\ generateSecurityHash env (p ++ [(k0, JObject (ps ++ [(k, x)]))])
     = generateSecurityHash env (p ++ [(k0, JObject ps)]).
Proof.
  intros Hk Hk0.
  assert (dataString (p ++ [(k0, JObject (ps ++ [(k, x)]))])
          = dataString (p ++ [(k0, JObject ps)])) as Hd;
    [|split; [exact Hd | now apply AttestationProofs.same_dataString_same_seal]].
  unfold dataString. rewrite !delete_property_app.
  set (cp := delete_property "securityHash" p).
  rewrite !delete_property_single.
  destruct (negb (String.eqb k0 "securityHash")); [|reflexivity].
  assert (Object_keys (cp ++ [(k0, JObject (ps ++ [(k, x)]))])
          = Object_keys (cp ++ [(k0, JObject ps)])) as Hkeys
    by (unfold Object_keys; now rewrite !map_app).
  rewrite Hkeys. unfold JSON_stringify.
  set (K := property_list (Array_sort (Object_keys (cp ++ [(k0, JObject ps)]))) []).
  assert (~ In k K) as HkK.
  { intros Hin. apply replacer_keys in Hin. rewrite map_app in Hin.
    apply in_app_or in Hin. destruct Hin as [Hin | [Heq | []]].
    - apply Hk. unfold cp in Hin.
      rewrite AttestationProofs.delete_property_keys in Hin.
      apply filter_In in Hin. tauto.
    - cbn in Heq. congruence. }
  f_equal. cbn [serialize]. rewrite !map_app. cbn [map].
  change (serialize K (JObject (ps ++ [(k, x)])))
    with (serialize K (JObject (ps ++ [(k, x)]))).
  now rewrite (AttestationProofs.unlisted_key_dropped K ps k x HkK).
Qed.

Lemma nested_field_unsealed_witness :
  generateSecurityHash ∅
    ([("refNumber", JString "R1")]
     ++ [("exporter", JObject ([("contact", JNull)] ++ [("company", JString "Acme")]))])
  = generateSecurityHash ∅
      ([("refNumber", JString "R1")] ++ [("exporter", JObject [("contact", JNull)])]).
Proof.
  apply (nested_field_unsealed ∅ [("refNumber", JString "R1")] "exporter"
           [("contact", JNull)] "company" (JString "Acme")).
  - intros [H | []]. discriminate H.
  - discriminate.
Defined.

(** X26.  A sealed payload may be re-serialised.  For every
    configuration and all payloads [p] and [q] that have the same
    fields, with the keys of their objects in whatever order at every
    depth: the seal generated for [p], attached to [q], is accepted by
    the library function and by the verification endpoint (200). *)
Theorem reordered_payload_still_accepted (env : Env) (p q : Obj) :
  same_fields (JObject p) (JObject q) ->
  let sealed := attach q (generateSecurityHash env p) in
  isValid (verifySecurityHash env sealed) = true
  /\ VerifyEndpoint.verify_code
       (VerifyEndpoint.post_verify_vpl env [("vplData", JObject sealed)]) = 200.
Proof.
  intros H. cbv zeta.
  destruct (AttestationProofs.key_order_irrelevant env p q H) as [_ Hseal].
  rewrite Hseal.
  assert (isValid (verifySecurityHash env (attach q (generateSecurityHash env q)))
          = true) as Hv
    by (rewrite AttestationProofs.verify_attach; cbn [isValid];
        apply String.eqb_refl).
  split; [exact Hv|].
  unfold VerifyEndpoint.post_verify_vpl.
  assert (get [("vplData", JObject (attach q (generateSecurityHash env q)))] "vplData"
          = JObject (attach q (generateSecurityHash env q))) as -> by reflexivity.
  assert (get (attach q (generateSecurityHash env q)) "securityHash"
          = JString (generateSecurityHash env q)) as ->
    by apply AttestationProofs.get_set_property.
  rewrite VerifyProofs.seal_truthy. cbn [negb]. rewrite Hv. reflexivity.
Qed.

Lemma reordered_payload_still_accepted_witness :
  isValid
    (verifySecurityHash ∅
       (attach
          [("a", JObject [("b", JBool true); ("x", JNull)]); ("b", JNumber 1)]
          (generateSecurityHash ∅
             [("b", JNumber 1); ("a", JObject [("x", JNull); ("b", JBool true)])])))
  = true.
Proof.
  apply (reordered_payload_still_accepted ∅
           [("b", JNumber 1); ("a", JObject [("x", JNull); ("b", JBool true)])]
           [("a", JObject [("b", JBool true); ("x", JNull)]); ("b", JNumber 1)]).
  apply (same_object _
           [("b", JNumber 1); ("a", JObject [("b", JBool true); ("x", JNull)])]).
  - constructor; [split; [reflexivity | apply same_value]|].
    constructor; [|constructor]. split; [reflexivity|].
    apply (same_object _ [("x", JNull); ("b", JBool true)]).
    + repeat constructor.
    + apply perm_swap.
    + repeat constructor; cbn; intuition discriminate.
  - apply perm_swap.
  - repeat constructor; cbn; intuition discriminate.
Defined.

End SealProofs.
